(** * Gemini proxy: Quota Guard and Response Normalizer

    A shallow embedding of the two deployments of the proxy:
    - the Express server ([server/index.js]): [checkRateLimit] with its
      shared-store (Redis) branch and its in-process branch, the auth
      middleware and the [/proxy] route;
    - the serverless function ([api/proxy.js]): [handler] with its own
      in-memory per-IP limiter.

    Wall-clock time is an explicit input: every call receives the value
    of [Date.now()] (milliseconds since the epoch) as an integer. The
    clock readings made within one call of a function are taken to be one
    instant, and the clock of the shared store to be the same clock.
    Counters are integers ([Z]); the JavaScript numbers involved stay far
    below 2^53, where they are exact. The built-ins [JSON.parse] and
    [fetch] are parameters of the handlers; a JSON parser is given to run
    them on examples. *)

From Stdlib Require Import ZArith Lia Ascii String.
From stdpp Require Import gmap strings list fin_maps sorting pretty.

Local Open Scope string_scope.
Local Open Scope Z_scope.

(** ** Time *)

Module Clock.

(** [Math.floor(Date.now() / 1000)] *)
Definition now_seconds (ms : Z) : Z := ms / 1000.

(** [Math.floor(now/60)], the suffix of the Redis minute key. *)
Definition minuteKey (ms : Z) : Z := now_seconds ms / 60.

(** [Math.floor(Date.now()/60000)], the in-process minute stamp. *)
Definition nowMin (ms : Z) : Z := ms / 60000.

(** [new Date().toISOString().slice(0,10)]: the UTC calendar date.
    The date string [YYYY-MM-DD] names the UTC day that contains the
    instant, and two instants yield the same string exactly when they
    lie in the same day of 86400000 ms (for the years 0000 to 9999,
    where the ISO string starts with a four-digit year). The date is
    represented by the index of that day since 1970-01-01. *)
Definition utcDate (ms : Z) : Z := ms / 86400000.

End Clock.

(** ** Quota Guard of the Express server *)

Module QuotaGuard.
Import Clock.

(** [MAX_REQUESTS_PER_MIN] and [MAX_DAILY_REQUESTS], read from the
    environment at start-up with [parseInt]; a setting that is not a
    number is outside the model. *)
Record Config := mkConfig {
  MAX_REQUESTS_PER_MIN : Z;
  MAX_DAILY_REQUESTS : Z
}.

(** The values used when the environment does not set them. *)
Definition defaultConfig : Config := mkConfig 60 10000.

Inductive reason := minute_limit | daily_limit.

(** The object returned by [checkRateLimit]: [{ ok: true }] or
    [{ ok: false, reason }]. *)
Inductive rate := Admit | Reject (r : reason).

#[export] Instance reason_eq_dec : EqDecision reason.
Proof. solve_decision. Defined.
#[export] Instance rate_eq_dec : EqDecision rate.
Proof. solve_decision. Defined.

(** *** The shared store

    Keys are the template strings [rl:${clientId}:${minute}] and
    [daily:${clientId}:${date}]. The prefix is fixed and the last
    component (a decimal number, a date) contains no colon, so the two
    templates are injective in (clientId, minute) and (clientId, date)
    and never collide with each other; a key is therefore represented
    by its components. *)
Inductive rkey :=
| RlKey (clientId : string) (minute : Z)
| DailyKey (clientId : string) (date : Z).

#[export] Instance rkey_eq_dec : EqDecision rkey.
Proof. solve_decision. Defined.

Definition rkey_encode (k : rkey) : string * Z + string * Z :=
  match k with
  | RlKey c m => inl (c, m)
  | DailyKey c d => inr (c, d)
  end.

Definition rkey_decode (x : string * Z + string * Z) : rkey :=
  match x with
  | inl (c, m) => RlKey c m
  | inr (c, d) => DailyKey c d
  end.

#[export] Instance rkey_countable : Countable rkey.
Proof. apply (inj_countable' rkey_encode rkey_decode). by intros []. Defined.

(** A stored counter: its value and, when [EXPIRE] was called on it,
    the instant (ms) at which it disappears. *)
Record rval := mkRval { rvalue : Z; rexpiry : option Z }.

Definition live (now : Z) (v : rval) : bool :=
  match rexpiry v with
  | Some e => bool_decide (now < e)
  | None => true
  end.

(** What the store holds under a key at instant [now]. *)
Definition redis_get (now : Z) (k : rkey) (store : gmap rkey rval) : option Z :=
  match store !! k with
  | Some v => if live now v then Some (rvalue v) else None
  | None => None
  end.

(** [INCR key]: a missing (or expired) key counts as 0 and has no
    expiry; the time to live of an existing key is kept. *)
Definition redis_incr (now : Z) (k : rkey) (store : gmap rkey rval)
  : Z * gmap rkey rval :=
  match store !! k with
  | Some v =>
      if live now v
      then (rvalue v + 1, <[k := mkRval (rvalue v + 1) (rexpiry v)]> store)
      else (1, <[k := mkRval 1 None]> store)
  | None => (1, <[k := mkRval 1 None]> store)
  end.

(** [EXPIRE key seconds]. *)
Definition redis_expire (now : Z) (k : rkey) (seconds : Z) (store : gmap rkey rval)
  : gmap rkey rval :=
  match store !! k with
  | Some v =>
      if live now v
      then <[k := mkRval (rvalue v) (Some (now + seconds * 1000))]> store
      else store
  | None => store
  end.

(** The Redis branch of [checkRateLimit]. *)
Definition checkRateLimit_redis (cfg : Config) (now : Z) (clientId : string)
    (store : gmap rkey rval) : rate * gmap rkey rval :=
  let minuteK := RlKey clientId (minuteKey now) in
  let dayK := DailyKey clientId (utcDate now) in
  let '(minute, store) := redis_incr now minuteK store in
  let store := if bool_decide (minute = 1) then redis_expire now minuteK 65 store else store in
  if bool_decide (minute > MAX_REQUESTS_PER_MIN cfg) then (Reject minute_limit, store)
  else
    let '(daily, store) := redis_incr now dayK store in
    let store := if bool_decide (daily = 1) then redis_expire now dayK (86400 + 60) store else store in
    if bool_decide (daily > MAX_DAILY_REQUESTS cfg) then (Reject daily_limit, store)
    else (Admit, store).

(** *** The in-process table [ipMap] *)
Record entry := mkEntry {
  minute : Z;
  count : Z;
  day : Z;
  dayCount : Z
}.

(** The in-memory branch of [checkRateLimit]. The entry object is
    reachable only through [ipMap], so updating it in place and then
    storing it again is an insertion of the updated record. *)
Definition checkRateLimit_mem (cfg : Config) (now : Z) (clientId : string)
    (ipMap : gmap string entry) : rate * gmap string entry :=
  let nowMin := nowMin now in
  let entry := default (mkEntry nowMin 0 (utcDate now) 0) (ipMap !! clientId) in
  let entry :=
    if bool_decide (minute entry ≠ nowMin)
    then mkEntry nowMin 0 (day entry) (dayCount entry)
    else entry in
  let entry := mkEntry (minute entry) (count entry + 1) (day entry) (dayCount entry + 1) in
  let ipMap := <[clientId := entry]> ipMap in
  if bool_decide (count entry > MAX_REQUESTS_PER_MIN cfg) then (Reject minute_limit, ipMap)
  else if bool_decide (dayCount entry > MAX_DAILY_REQUESTS cfg) then (Reject daily_limit, ipMap)
  else (Admit, ipMap).

(** The process-wide limiter state: the Redis client ([null] when
    [REDIS_URL] is not set) and the in-process table. *)
Record limiter := mkLimiter {
  redis : option (gmap rkey rval);
  ipMap : gmap string entry
}.

(** [checkRateLimit(clientId)] *)
Definition checkRateLimit (cfg : Config) (now : Z) (clientId : string)
    (st : limiter) : rate * limiter :=
  match redis st with
  | Some store =>
      let '(r, store) := checkRateLimit_redis cfg now clientId store in
      (r, mkLimiter (Some store) (ipMap st))
  | None =>
      let '(r, m) := checkRateLimit_mem cfg now clientId (ipMap st) in
      (r, mkLimiter None m)
  end.

(** A sequence of calls [(clientId, Date.now())], oldest first, and the
    decisions it produces. *)
Fixpoint run (cfg : Config) (calls : list (string * Z)) (st : limiter) : list rate :=
  match calls with
  | [] => []
  | (c, t) :: calls =>
      let '(r, st) := checkRateLimit cfg t c st in
      r :: run cfg calls st
  end.

Definition sharedStore : limiter := mkLimiter (Some ∅) ∅.
Definition inProcess : limiter := mkLimiter None ∅.


(** *** Observers and auxiliary notions used to state the properties *)

(** The minute counter that a call of [clientId] at instant [now] has
    just incremented. *)
Definition minuteCount (now : Z) (clientId : string) (st : limiter) : Z :=
  match redis st with
  | Some store => default 0 (redis_get now (RlKey clientId (minuteKey now)) store)
  | None => default 0 (count <$> ipMap st !! clientId)
  end.

(** The in-process daily counter of a client (0 before its first call). *)
Definition dayCountOf (m : gmap string entry) (clientId : string) : Z :=
  default 0 (dayCount <$> m !! clientId).

(** The decisions of a sequence of calls, each with the minute counter
    read right after the call. *)
Fixpoint trace (cfg : Config) (calls : list (string * Z)) (st : limiter)
  : list (rate * Z) :=
  match calls with
  | [] => []
  | (c, t) :: calls =>
      let '(r, st) := checkRateLimit cfg t c st in
      (r, minuteCount t c st) :: trace cfg calls st
  end.

(** How many of the calls in [hist] were made by [c] in epoch minute [k]. *)
Definition callsInMinute (hist : list (string * Z)) (c : string) (k : Z) : Z :=
  Z.of_nat (length (filter (λ ct, ct.1 = c ∧ minuteKey ct.2 = k) hist)).

Definition window_end (k : rkey) : Z :=
  match k with
  | RlKey _ m => (m + 1) * 60000
  | DailyKey _ d => (d + 1) * 86400000
  end.

Definition wf (s : gmap rkey rval) : Prop :=
  ∀ k v, s !! k = Some v →
    1 ≤ rvalue v ∧ ∃ x, rexpiry v = Some x ∧ window_end k ≤ x.

(** The value of a counter, 0 when the key is absent. *)
Definition rcount (s : gmap rkey rval) (k : rkey) : Z :=
  match s !! k with Some v => rvalue v | None => 0 end.

(** [INCR] followed by the conditional [EXPIRE], as both increments of
    [checkRateLimit] do it. *)
Definition incr_expire (now : Z) (k : rkey) (seconds : Z) (s : gmap rkey rval) :=
  let '(v, s) := redis_incr now k s in
  (v, if bool_decide (v = 1) then redis_expire now k seconds s else s).


(** The two comparisons that end both branches of [checkRateLimit]. *)
Definition verdict (cfg : Config) (n d : Z) : rate :=
  if bool_decide (n > MAX_REQUESTS_PER_MIN cfg) then Reject minute_limit
  else if bool_decide (d > MAX_DAILY_REQUESTS cfg) then Reject daily_limit
  else Admit.


(** The in-process table and the shared store after the same calls, the
    latest at instant [tl], all on UTC date [d]. [P] holds of the
    clients none of whose calls was rejected for the minute limit. *)
Definition agree (P : string → Prop) (d tl : Z)
    (m : gmap string entry) (s : gmap rkey rval) : Prop :=
  wf s ∧ ∀ c,
    match m !! c with
    | None =>
        (∀ k, rcount s (RlKey c k) = 0) ∧ (P c → rcount s (DailyKey c d) = 0)
    | Some e =>
        minute e ≤ nowMin tl
        ∧ rcount s (RlKey c (minute e)) = count e
        ∧ (∀ k, minute e < k → rcount s (RlKey c k) = 0)
        ∧ (P c → rcount s (DailyKey c d) = dayCount e)
    end.

(** The shared daily counter of a client, for whatever date, is at most
    the in-process daily counter of that client. *)
Definition dailyBelow (m : gmap string entry) (s : gmap rkey rval) : Prop :=
  ∀ c d, rcount s (DailyKey c d) ≤ dayCountOf m c.

(** The shared daily counter of client [c] for date [d] equals the
    in-process daily counter whenever [Q c d]; [Q c d] is meant to hold
    when every call of [c] so far fell on date [d] and none was rejected
    for the minute limit. *)
Definition dailyEqual (Q : string → Z → Prop)
    (m : gmap string entry) (s : gmap rkey rval) : Prop :=
  ∀ c d, Q c d → rcount s (DailyKey c d) = dayCountOf m c.

End QuotaGuard.



(** ** JSON values and [JSON.parse] *)

Module Json.

#[local] Set Warnings "-register-all".

(** A JSON number, kept as the decimal it is written as:
    [mantissa * 10 ^ exponent]. *)
Record number := mkNumber { mantissa : Z; exponent : Z }.

Inductive json :=
| JNull
| JBool (b : bool)
| JNumber (n : number)
| JString (s : string)
| JArray (items : list json)
| JObject (props : list (string * json)).

(** The double quote character. *)
Definition dquote : ascii := "034"%char.
Definition backslash : ascii := "092"%char.

(** Own property [name] of an object literal; a later duplicate of a
    key overrides an earlier one. *)
Fixpoint lookupProp (name : string) (props : list (string * json)) : option json :=
  match props with
  | [] => None
  | (k, v) :: props =>
      match lookupProp name props with
      | Some w => Some w
      | None => if String.eqb k name then Some v else None
      end
  end.

(** ** Text to value: the grammar of [JSON.parse] *)

Definition is_ws (c : ascii) : bool :=
  let n := nat_of_ascii c in
  (n =? 32)%nat || (n =? 9)%nat || (n =? 10)%nat || (n =? 13)%nat.

Fixpoint skip_ws (s : string) : string :=
  match s with
  | String c r => if is_ws c then skip_ws r else s
  | EmptyString => s
  end.

Fixpoint expect (p s : string) : option string :=
  match p with
  | EmptyString => Some s
  | String c p =>
      match s with
      | String d r => if Ascii.eqb c d then expect p r else None
      | EmptyString => None
      end
  end.

Definition digit_of (c : ascii) : option Z :=
  let n := nat_of_ascii c in
  if (48 <=? n)%nat && (n <=? 57)%nat then Some (Z.of_nat n - 48) else None.

Definition hex_of (c : ascii) : option N :=
  let n := N_of_ascii c in
  if (48 <=? n)%N && (n <=? 57)%N then Some (n - 48)%N
  else if (65 <=? n)%N && (n <=? 70)%N then Some (n - 55)%N
  else if (97 <=? n)%N && (n <=? 102)%N then Some (n - 87)%N
  else None.

(** The UTF-8 bytes of a [\uXXXX] code unit. *)
Definition utf8 (u : N) : string :=
  if (u <? 128)%N then String (ascii_of_N u) EmptyString
  else if (u <? 2048)%N then
    String (ascii_of_N (192 + u / 64)) (String (ascii_of_N (128 + u mod 64)) EmptyString)
  else
    String (ascii_of_N (224 + u / 4096))
      (String (ascii_of_N (128 + (u / 64) mod 64))
         (String (ascii_of_N (128 + u mod 64)) EmptyString)).

(** The characters of a string literal after its opening quote. *)
Fixpoint string_body (s : string) : option (string * string) :=
  match s with
  | EmptyString => None
  | String c r =>
      if Ascii.eqb c dquote then Some (EmptyString, r)
      else if Ascii.eqb c backslash then
        match r with
        | String e r' =>
            let simple (x : ascii) :=
              match string_body r' with
              | Some (t, rest) => Some (String x t, rest)
              | None => None
              end in
            if Ascii.eqb e dquote then simple dquote
            else if Ascii.eqb e backslash then simple backslash
            else if Ascii.eqb e "/" then simple "/"%char
            else if Ascii.eqb e "b" then simple "008"%char
            else if Ascii.eqb e "f" then simple "012"%char
            else if Ascii.eqb e "n" then simple "010"%char
            else if Ascii.eqb e "r" then simple "013"%char
            else if Ascii.eqb e "t" then simple "009"%char
            else if Ascii.eqb e "u" then
              match r' with
              | String h1 (String h2 (String h3 (String h4 r''))) =>
                  match hex_of h1, hex_of h2, hex_of h3, hex_of h4 with
                  | Some a, Some b, Some c', Some d =>
                      match string_body r'' with
                      | Some (t, rest) =>
                          Some (utf8 (((a * 16 + b) * 16 + c') * 16 + d)%N ++ t, rest)
                      | None => None
                      end
                  | _, _, _, _ => None
                  end
              | _ => None
              end
            else None
        | EmptyString => None
        end
      else if (nat_of_ascii c <? 32)%nat then None
      else
        match string_body r with
        | Some (t, rest) => Some (String c t, rest)
        | None => None
        end
  end.

(** A run of digits: its value continued from [acc], how many there
    are, and the rest of the text. *)
Fixpoint digits (s : string) (acc : Z) (n : Z) : Z * Z * string :=
  match s with
  | String c r =>
      match digit_of c with
      | Some d => digits r (acc * 10 + d) (n + 1)
      | None => (acc, n, s)
      end
  | EmptyString => (acc, n, s)
  end.

(** A number: an optional minus sign, an integer part (0, or digits
    that do not start with 0), an optional fraction (a dot and at least
    one digit) and an optional exponent (e or E, an optional sign and at
    least one digit). *)
Definition number_text (s : string) : option (number * string) :=
  let '(neg, s) :=
    match s with
    | String "-" r => (true, r)
    | _ => (false, s)
    end in
  let int_part :=
    match s with
    | String "0" r => Some (0, r)
    | _ => let '(v, n, r) := digits s 0 0 in if n =? 0 then None else Some (v, r)
    end in
  match int_part with
  | None => None
  | Some (i, s) =>
      let frac_part :=
        match s with
        | String "." r =>
            let '(v, n, r') := digits r i 0 in
            if n =? 0 then None else Some (v, n, r')
        | _ => Some (i, 0, s)
        end in
      match frac_part with
      | None => None
      | Some (m, fl, s) =>
          let exp_part :=
            match s with
            | String c r =>
                if Ascii.eqb c "e" || Ascii.eqb c "E" then
                  let '(eneg, r) :=
                    match r with
                    | String "-" r' => (true, r')
                    | String "+" r' => (false, r')
                    | _ => (false, r)
                    end in
                  let '(v, n, r') := digits r 0 0 in
                  if n =? 0 then None else Some (if eneg then - v else v, r')
                else Some (0, s)
            | EmptyString => Some (0, s)
            end in
          match exp_part with
          | None => None
          | Some (e, s) => Some (mkNumber (if neg then - m else m) (e - fl), s)
          end
      end
  end.

Section Sequences.
(** The parser of one value, for the elements of an array and the
    values of an object. *)
Variable value : string → option (json * string).

(** After the opening bracket, when the array is not empty. *)
Fixpoint elements (fuel : nat) (s : string) : option (list json * string) :=
  match fuel with
  | O => None
  | S fuel =>
      match value s with
      | None => None
      | Some (v, r) =>
          match skip_ws r with
          | String "," r' =>
              match elements fuel r' with
              | Some (vs, rest) => Some (v :: vs, rest)
              | None => None
              end
          | String "]" r' => Some ([v], r')
          | _ => None
          end
      end
  end.

(** After the opening brace, when the object is not empty. *)
Fixpoint members (fuel : nat) (s : string) : option (list (string * json) * string) :=
  match fuel with
  | O => None
  | S fuel =>
      match skip_ws s with
      | String q r =>
          if Ascii.eqb q dquote then
            match string_body r with
            | None => None
            | Some (k, r) =>
                match skip_ws r with
                | String ":" r =>
                    match value r with
                    | None => None
                    | Some (v, r) =>
                        match skip_ws r with
                        | String "," r' =>
                            match members fuel r' with
                            | Some (kvs, rest) => Some ((k, v) :: kvs, rest)
                            | None => None
                            end
                        | String "}" r' => Some ([(k, v)], r')
                        | _ => None
                        end
                    end
                | _ => None
                end
            end
          else None
      | EmptyString => None
      end
  end.
End Sequences.

(** One value, with the white space before it. [fuel] bounds the
    nesting depth. *)
Fixpoint value (fuel : nat) (s : string) : option (json * string) :=
  match fuel with
  | O => None
  | S fuel =>
      let s := skip_ws s in
      match s with
      | EmptyString => None
      | String c r =>
          if Ascii.eqb c "n" then option_map (pair JNull) (expect "ull" r)
          else if Ascii.eqb c "t" then option_map (pair (JBool true)) (expect "rue" r)
          else if Ascii.eqb c "f" then option_map (pair (JBool false)) (expect "alse" r)
          else if Ascii.eqb c dquote then
            match string_body r with
            | Some (t, rest) => Some (JString t, rest)
            | None => None
            end
          else if Ascii.eqb c "[" then
            match skip_ws r with
            | String "]" r' => Some (JArray [], r')
            | _ =>
                match elements (value fuel) (String.length r) r with
                | Some (vs, rest) => Some (JArray vs, rest)
                | None => None
                end
            end
          else if Ascii.eqb c "{" then
            match skip_ws r with
            | String "}" r' => Some (JObject [], r')
            | _ =>
                match members (value fuel) (String.length r) r with
                | Some (kvs, rest) => Some (JObject kvs, rest)
                | None => None
                end
            end
          else
            match number_text s with
            | Some (n, rest) => Some (JNumber n, rest)
            | None => None
            end
      end
  end.

(** [JSON.parse] on a string: one value, white space around it and
    nothing else. [None] stands for the [SyntaxError]. *)
Definition parse_text (s : string) : option json :=
  match value (S (String.length s)) s with
  | Some (v, rest) =>
      match skip_ws rest with
      | EmptyString => Some v
      | _ => None
      end
  | None => None
  end.

(** ** Value to text: the coercion [JSON.parse] applies to an argument
    that is not a string *)

(** A run of [n] zeros. *)
Fixpoint zeros (n : nat) : string :=
  match n with
  | O => EmptyString
  | S n => String "0" (zeros n)
  end.

(** A decimal rendering of a number. JavaScript switches to exponent
    notation for very large and very small values; both renderings are
    JSON numbers with the same value, which is all [JSON.parse] sees. *)
Definition number_to_string (n : number) : string :=
  let m := mantissa n in
  let e := exponent n in
  let sign := if m <? 0 then "-" else EmptyString in
  let ds := pretty (Z.abs m) in
  if m =? 0 then "0"
  else if 0 <=? e then sign ++ ds ++ zeros (Z.to_nat e)
  else
    let len := Z.of_nat (String.length ds) in
    if - e <? len then
      sign ++ substring 0 (Z.to_nat (len + e)) ds ++ "."
           ++ substring (Z.to_nat (len + e)) (Z.to_nat (- e)) ds
    else sign ++ "0." ++ zeros (Z.to_nat (- e - len)) ++ ds.

Fixpoint join (sep : string) (l : list string) : string :=
  match l with
  | [] => EmptyString
  | [x] => x
  | x :: l => x ++ sep ++ join sep l
  end.

(** [ToString]. An array is joined with commas, [null] elements giving
    the empty string; an object gives [[object Object]], unless it has an
    own property [toString], which (never being a function) makes the
    conversion raise a [TypeError] ([None]). *)
Fixpoint ToString (v : json) : option string :=
  match v with
  | JNull => Some "null"
  | JBool true => Some "true"
  | JBool false => Some "false"
  | JNumber n => Some (number_to_string n)
  | JString s => Some s
  | JArray items =>
      let fix each (l : list json) : option (list string) :=
        match l with
        | [] => Some []
        | x :: l =>
            let sx := match x with JNull => Some EmptyString | _ => ToString x end in
            match sx, each l with
            | Some a, Some b => Some (a :: b)
            | _, _ => None
            end
        end in
      option_map (join ",") (each items)
  | JObject props =>
      match lookupProp "toString" props with
      | Some _ => None
      | None => Some "[object Object]"
      end
  end.

(** [JSON.parse(v)]: [None] stands for the exception it raises. *)
Definition JSON_parse (v : json) : option json :=
  match ToString v with
  | Some s => parse_text s
  | None => None
  end.

(** ** JavaScript values

    A value held by a variable of the handlers is a JSON value or
    [undefined] ([None]). *)

Definition truthy (v : option json) : bool :=
  match v with
  | None => false
  | Some JNull => false
  | Some (JBool b) => b
  | Some (JNumber n) => negb (mantissa n =? 0)
  | Some (JString s) => negb (String.eqb s EmptyString)
  | Some (JArray _) => true
  | Some (JObject _) => true
  end.

(** [v.name] on a value that is neither [null] nor [undefined], for the
    names [candidates], [content], [parts] and [text]: an own property of
    an object; arrays, strings, numbers and booleans have no property of
    these names. *)
Definition getProp (v : json) (name : string) : option json :=
  match v with
  | JObject props => lookupProp name props
  | _ => None
  end.

(** [v[0]] on a value that is neither [null] nor [undefined]: the first
    element of an array, the property [0] of an object, the first
    character of a string. *)
Definition getIndex0 (v : json) : option json :=
  match v with
  | JArray items => head items
  | JObject props => lookupProp "0" props
  | JString (String c _) => Some (JString (String c EmptyString))
  | _ => None
  end.

(** The result of evaluating an expression: a value, or the
    [TypeError] of a property access on [null] or [undefined]. *)
Inductive outcome (A : Type) :=
| Returned (a : A)
| Thrown.
Arguments Returned {A} a.
Arguments Thrown {A}.

Definition bind {A B} (x : outcome A) (f : A → outcome B) : outcome B :=
  match x with
  | Returned a => f a
  | Thrown => Thrown
  end.

(** [v.name] *)
Definition member (v : option json) (name : string) : outcome (option json) :=
  match v with
  | None | Some JNull => Thrown
  | Some v => Returned (getProp v name)
  end.

(** [v[0]] *)
Definition index0 (v : option json) : outcome (option json) :=
  match v with
  | None | Some JNull => Thrown
  | Some v => Returned (getIndex0 v)
  end.

(** [v?.name] *)
Definition optMember (v : option json) (name : string) : option json :=
  match v with
  | None | Some JNull => None
  | Some v => getProp v name
  end.

(** [v?.[0]] *)
Definition optIndex0 (v : option json) : option json :=
  match v with
  | None | Some JNull => None
  | Some v => getIndex0 v
  end.

End Json.

(** ** Response Normalizer

    The block that both handlers run on the parsed upstream body
    ([api/proxy.js] lines 66 to 80, [server/index.js] lines 170 to 183). *)

Module Normalizer.
Import Json.

Notation "'do' x := e 'in' k" := (bind e (λ x, k))
  (at level 10, x name, e at level 100, k at level 200, only parsing).

Section Normalize.
(** The built-in [JSON.parse]; [None] stands for a raised exception. *)
Variable JSON_parse : json → option json.

(** The value of [candidates?.[0]?.content?.parts?.[0]?.text]. *)
Definition textAtPath (json : json) : option Json.json :=
  optMember (optIndex0 (optMember (optMember (optIndex0 (getProp json "candidates"))
                                               "content") "parts")) "text".

(** [candidate && candidate.content?.parts?.[0]?.text] is [guard]; the
    object literal [{ candidates: json.candidates }] has no property
    when the value is [undefined]. *)
Definition normalize (json : json) : outcome Json.json :=
  do candidates := member (Some json) "candidates" in
  let candidate := optIndex0 candidates in
  do guard :=
    (if truthy candidate then
       do content := member candidate "content" in
       Returned (optMember (optIndex0 (optMember content "parts")) "text")
     else Returned candidate) in
  if truthy guard then
    do content := member candidate "content" in
    do parts := member content "parts" in
    do part := index0 parts in
    do textPart := member part "text" in
    match match textPart with Some t => JSON_parse t | None => None end with
    | Some recommendations =>
        Returned (JObject [("recommendations", recommendations)])
    | None =>
        Returned (JObject (match candidates with
                           | Some c => [("candidates", c)]
                           | None => []
                           end))
    end
  else Returned json.

End Normalize.

End Normalizer.

(** ** What both handlers share *)

Module Http.
Import Json.

Inductive content :=
| JsonBody (j : json)
| TextBody (s : string).

(** The response sent: status, the [Allow] header when set, and the
    body. *)
Record response := mkResponse {
  status : Z;
  allow : option string;
  body : content
}.

(** What [fetch] yields: a network failure (the promise rejects), or a
    reply with its status and body text. *)
Inductive fetched :=
| NetworkError
| Reply (status : Z) (text : string).

(** [r.ok] *)
Definition ok (status : Z) : bool := (200 <=? status) && (status <=? 299).

(** An upstream call: the URL and the value whose [JSON.stringify] is
    the request body. *)
Definition upstreamCall : Type := string * option json.

(** A string of the environment or of a header, as a condition. *)
Definition set (s : option string) : bool :=
  match s with
  | Some s => negb (String.eqb s EmptyString)
  | None => false
  end.

(** The characters [trim] strips.  Node decodes a header value as
    latin1, one character per byte, and the socket address is ASCII;
    among the characters below 256, JavaScript's white space and line
    terminators are 9 to 13, 32 and 160 (the no-break space). *)
Definition is_space (c : ascii) : bool :=
  let n := nat_of_ascii c in
  ((9 <=? n)%nat && (n <=? 13)%nat) || (n =? 32)%nat || (n =? 160)%nat.

(** [s.split(',')[0]] *)
Fixpoint beforeComma (s : string) : string :=
  match s with
  | String c r => if Ascii.eqb c "," then EmptyString else String c (beforeComma r)
  | EmptyString => EmptyString
  end.

Fixpoint trimStart (s : string) : string :=
  match s with
  | String c r => if is_space c then trimStart r else s
  | EmptyString => EmptyString
  end.

Fixpoint trimEnd (s : string) : string :=
  match s with
  | String c r =>
      match trimEnd r with
      | EmptyString => if is_space c then EmptyString else String c EmptyString
      | r' => String c r'
      end
  | EmptyString => EmptyString
  end.

(** [s.trim()] on a string of characters below 256. *)
Definition trim (s : string) : string := trimEnd (trimStart s).

(** [(xff || remoteAddress || 'unknown').split(',')[0].trim()] *)
Definition clientIp (x_forwarded_for remoteAddress : option string) : string :=
  let source :=
    if set x_forwarded_for then default "unknown" x_forwarded_for
    else if set remoteAddress then default "unknown" remoteAddress
    else "unknown" in
  trim (beforeComma source).

Definition endpoint (model key : string) : string :=
  "https://generativelanguage.googleapis.com/v1beta/models/" ++ model
    ++ ":generateContent?key=" ++ key.

Definition defaultModel : string := "gemini-2.5-flash-preview-09-2025".

Definition errorBody (message : string) : content :=
  JsonBody (JObject [("error", JString message)]).

Section Upstream.
Variable JSON_parse : json → option json.
Variable fetch : string → option json → fetched.

(** The [try] block of both handlers: the upstream call, the error
    pass-through, the parse of the body and the normalization;
    [internalError] is the message of the [catch]. *)
Definition forward (internalError : string) (url : string) (payload : option json)
  : response :=
  match fetch url payload with
  | NetworkError => mkResponse 500 None (errorBody internalError)
  | Reply st text =>
      if negb (ok st) then mkResponse st None (TextBody text)
      else
        match JSON_parse (JString text) with
        | None => mkResponse 500 None (errorBody internalError)
        | Some json =>
            match Normalizer.normalize JSON_parse json with
            | Returned j => mkResponse 200 None (JsonBody j)
            | Thrown => mkResponse 500 None (errorBody internalError)
            end
        end
  end.
End Upstream.

End Http.

(** ** The serverless function's own limiter ([api/proxy.js]) *)

Module Serverless.

Definition RATE_LIMIT_WINDOW_MS : Z := 60 * 1000.
Definition MAX_REQUESTS_PER_WINDOW : Z := 60.

(** An element of [ipCounters]. *)
Record entry := mkEntry { count : Z; start : Z }.

(** Lines 25 to 33 of [handler]: the per-IP window counter. Returns
    whether the request exceeds the ceiling, and the updated table. *)
Definition rateLimit (now : Z) (ip : string) (ipCounters : gmap string entry)
  : bool * gmap string entry :=
  let entry := default (mkEntry 0 now) (ipCounters !! ip) in
  let entry :=
    if bool_decide (now - start entry > RATE_LIMIT_WINDOW_MS)
    then mkEntry 0 now
    else entry in
  let entry := mkEntry (count entry + 1) (start entry) in
  let ipCounters := <[ip := entry]> ipCounters in
  (bool_decide (count entry > MAX_REQUESTS_PER_WINDOW), ipCounters).

(** The calls of one client at the given instants: for each, whether it
    was rejected and the counter read right after it. *)
Fixpoint trace (ip : string) (times : list Z) (ipCounters : gmap string entry)
  : list (bool * Z) :=
  match times with
  | [] => []
  | t :: times =>
      let '(rejected, ipCounters) := rateLimit t ip ipCounters in
      (rejected, default 0 (count <$> ipCounters !! ip)) :: trace ip times ipCounters
  end.

(** *** The handler *)

Record request := mkRequest {
  method : string;
  x_forwarded_for : option string;
  remoteAddress : option string;
  body : option Json.json;
  rawBody : option string
}.

Record environment := mkEnvironment {
  GEMINI_API_KEY : option string;
  GEMINI_MODEL : option string
}.

(** [Object.keys(body).length === 0] for a truthy [body]. *)
Definition noKeys (v : Json.json) : bool :=
  match v with
  | Json.JObject [] | Json.JArray [] => true
  | Json.JObject _ | Json.JArray _ => false
  | Json.JString s => String.eqb s EmptyString
  | _ => true
  end.

Section Handler.
Variable JSON_parse : Json.json → option Json.json.
Variable fetch : string → option Json.json → Http.fetched.

(** Lines 41 to 49: an empty body is read again from [rawBody]. *)
Definition requestBody (req : request) : option Json.json :=
  let empty :=
    match body req with
    | Some v => negb (Json.truthy (Some v)) || noKeys v
    | None => true
    end in
  if empty then
    match JSON_parse (Json.JString (if Http.set (rawBody req)
                                    then default "{}" (rawBody req) else "{}")) with
    | Some v => Some v
    | None => body req
    end
  else body req.

(** [handler(req, res)] at instant [now]: the response, the table
    [ipCounters] afterwards and the upstream calls made. *)
Definition handler (env : environment) (now : Z) (req : request)
    (ipCounters : gmap string entry)
  : Http.response * gmap string entry * list Http.upstreamCall :=
  if negb (String.eqb (method req) "POST") then
    (Http.mkResponse 405 (Some "POST") (Http.TextBody "Method Not Allowed"),
     ipCounters, [])
  else if negb (Http.set (GEMINI_API_KEY env)) then
    (Http.mkResponse 403 None
       (Http.errorBody
          "GEMINI_API_KEY not configured on server. Please set the environment variable."),
     ipCounters, [])
  else
    let ip := Http.clientIp (x_forwarded_for req) (remoteAddress req) in
    let '(rejected, ipCounters) := rateLimit now ip ipCounters in
    if rejected then
      (Http.mkResponse 429 None (Http.errorBody "Rate limit exceeded. Try again later."),
       ipCounters, [])
    else
      let model := if Http.set (GEMINI_MODEL env)
                   then default Http.defaultModel (GEMINI_MODEL env)
                   else Http.defaultModel in
      let url := Http.endpoint model (default EmptyString (GEMINI_API_KEY env)) in
      let payload := requestBody req in
      (Http.forward JSON_parse fetch "Proxy encountered an internal error." url payload,
       ipCounters, [(url, payload)]).
End Handler.

End Serverless.

(** ** The Express server ([server/index.js]) *)

Module Express.
Import Json.

Record environment := mkEnvironment {
  GEMINI_API_KEY : option string;
  GEMINI_MODEL : option string;
  API_TOKEN : option string;
  NO_AUTH : option string;
  DEMO_PROXY : option string;
  limits : QuotaGuard.Config
}.

Record request := mkRequest {
  x_api_token : option string;
  x_forwarded_for : option string;
  remoteAddress : option string;
  body : option json
}.

Definition num (z : Z) : json := JNumber (mkNumber z 0).

Definition assessment (name url adaptive description : string) (duration : Z)
    (remote : string) (test_type : list string) : json :=
  JObject [("name", JString name); ("url", JString url);
           ("adaptive_support", JString adaptive); ("description", JString description);
           ("duration", num duration); ("remote_support", JString remote);
           ("test_type", JArray (JString <$> test_type))].

Definition demoRecommendations : json :=
  JArray [
    assessment "Java (New)"
      "https://www.shl.com/solutions/products/product-catalog/view/java-new/" "No"
      "Multi-choice test that measures the knowledge of Java programming, including core concepts, data structures, and OOP principles."
      20 "Yes" ["Knowledge & Skills"];
    assessment "Teamwork & Collaboration (SJT)"
      "https://www.shl.com/solutions/products/product-catalog/view/teamwork-collaboration-sjt/" "No"
      "A Situational Judgement Test (SJT) that assesses how an individual collaborates in a team environment."
      20 "Yes" ["Biodata & Situational Judgement"; "Personality & Behavior"];
    assessment "Cognitive Ability (General)"
      "https://www.shl.com/solutions/products/product-catalog/view/cognitive-ability-general/" "Yes"
      "Measures verbal, numerical, and abstract reasoning. Good for analyst roles."
      30 "Yes" ["Ability & Aptitude"];
    assessment "Numerical Reasoning"
      "https://www.shl.com/solutions/products/product-catalog/view/numerical-reasoning/" "Yes"
      "Assesses the ability to work with and interpret numerical data, such as graphs, charts, and tables."
      25 "Yes" ["Ability & Aptitude"];
    assessment "Technology Professional 8.8 Job Focused Assessment"
      "https://www.shl.com/solutions/products/product-catalog/view/technology-professional-8-8-job-focused-assessment/" "No"
      "The Technology Job Focused Assessment assesses key behavioral attributes required for success in fast-paced roles."
      16 "Yes" ["Competencies"; "Personality & Behavior"]
  ].

Definition reasonName (r : QuotaGuard.reason) : string :=
  match r with
  | QuotaGuard.minute_limit => "minute_limit"
  | QuotaGuard.daily_limit => "daily_limit"
  end.

(** The auth middleware: [None] when it calls [next()], the response it
    sends otherwise. *)
Definition auth (env : environment) (req : request) : option Http.response :=
  if bool_decide (NO_AUTH env = Some "1") then None
  else if negb (Http.set (API_TOKEN env)) then
    Some (Http.mkResponse 403 None (Http.errorBody "Server misconfigured: API_TOKEN not set"))
  else if negb (Http.set (x_api_token req))
          || negb (bool_decide (x_api_token req = API_TOKEN env)) then
    Some (Http.mkResponse 401 None (Http.errorBody "Unauthorized"))
  else None.

Section Route.
Variable JSON_parse : json → option json.
Variable fetch : string → option json → Http.fetched.

(** The callback of [app.post('/proxy', ...)] at instant [now]: the
    response, the limiter state afterwards and the upstream calls
    made. *)
Definition proxy (env : environment) (now : Z) (req : request)
    (st : QuotaGuard.limiter)
  : Http.response * QuotaGuard.limiter * list Http.upstreamCall :=
  if negb (Http.set (GEMINI_API_KEY env)) then
    if bool_decide (DEMO_PROXY env = Some "1") then
      (Http.mkResponse 200 None
         (Http.JsonBody (JObject [("recommendations", demoRecommendations)])),
       st, [])
    else
      (Http.mkResponse 500 None (Http.errorBody "GEMINI_API_KEY not configured on server"),
       st, [])
  else
    let client := Http.clientIp (x_forwarded_for req) (remoteAddress req) in
    let '(rate, st) := QuotaGuard.checkRateLimit (limits env) now client st in
    match rate with
    | QuotaGuard.Reject reason =>
        (Http.mkResponse 429 None
           (Http.JsonBody (JObject [("error", JString "Rate limit exceeded");
                                    ("reason", JString (reasonName reason))])),
         st, [])
    | QuotaGuard.Admit =>
        let payload := if truthy (body req) then body req else Some (JObject []) in
        let model := if Http.set (GEMINI_MODEL env)
                     then default Http.defaultModel (GEMINI_MODEL env)
                     else Http.defaultModel in
        let url := Http.endpoint model (default EmptyString (GEMINI_API_KEY env)) in
        (Http.forward JSON_parse fetch "Proxy internal error" url payload,
         st, [(url, payload)])
    end.

(** A POST to [/proxy]: the auth middleware, then the route. *)
Definition postProxy (env : environment) (now : Z) (req : request)
    (st : QuotaGuard.limiter)
  : Http.response * QuotaGuard.limiter * list Http.upstreamCall :=
  match auth env req with
  | Some response => (response, st, [])
  | None => proxy env now req st
  end.
End Route.

End Express.

(** ** The test harness ([server/test-harness.js]) *)

Module Harness.
Import Json.

Definition newline : string := String "010"%char EmptyString.

Definition samplePayload : json :=
  JObject [
    ("contents",
     JArray [JObject [("parts",
       JArray [JObject [("text",
         JString ("Here is the product catalog: []" ++ newline ++ newline
                  ++ "Here is the user query:" ++ newline
                  ++ String dquote "Test query" ++ String dquote newline ++ newline
                  ++ "Return JSON array."))]])]]);
    ("systemInstruction",
     JObject [("parts", JArray [JObject [("text", JString "Return ONLY a JSON array")]])])
  ].

(** The request that [run] sends, as the server receives it: the header
    [X-API-TOKEN] is present when the harness's [API_TOKEN] is set, there
    is no forwarded-for header, and the body is the sample payload (the
    body parser reads back what [JSON.stringify] wrote). *)
Definition request (API_TOKEN : option string) (remoteAddress : option string)
  : Express.request :=
  let token := if Http.set API_TOKEN then default EmptyString API_TOKEN else EmptyString in
  Express.mkRequest
    (if negb (String.eqb token EmptyString) then Some token else None)
    None remoteAddress (Some samplePayload).

End Harness.

(** ** The Express server over a sequence of requests *)

Module Server.
Import Json.

Section Serve.
Variable JSON_parse : json → option json.
Variable fetch : string → option json → Http.fetched.

End Serve.

(** The client identifier of a request. *)
Definition client (req : Express.request) : string :=
  Http.clientIp (Express.x_forwarded_for req) (Express.remoteAddress req).


End Server.

(** ** Accounting over a sequence of calls *)

Module Accounting.
Import Clock QuotaGuard.

(** The limiter state after a sequence of calls. *)
Fixpoint finalState (cfg : Config) (calls : list (string * Z)) (st : limiter) : limiter :=
  match calls with
  | [] => st
  | (c, t) :: calls => finalState cfg calls (checkRateLimit cfg t c st).2
  end.

(** The decisions that the calls of client [c] received. *)
Definition decisionsOf (c : string) (calls : list (string * Z)) (decisions : list rate)
  : list rate :=
  (filter (λ x, x.1.1 = c) (zip calls decisions)).*2.

(** How many of the calls that satisfy [P] were admitted. *)
Definition admitted (P : string * Z → Prop) `{!∀ x, Decision (P x)}
    (calls : list (string * Z)) (decisions : list rate) : Z :=
  Z.of_nat (length (filter (λ x, P x.1 ∧ x.2 = Admit) (zip calls decisions))).

(** What [INCR] and the conditional [EXPIRE] do to the counter under one
    key: the value returned and the counter stored. *)
Definition cell (now seconds : Z) (o : option rval) : Z * rval :=
  let '(n, e) :=
    match o with
    | Some v => if live now v then (rvalue v + 1, rexpiry v) else (1, None)
    | None => (1, None)
    end in
  (n, mkRval n (if bool_decide (n = 1) then Some (now + seconds * 1000) else e)).

(** Two limiter states that hold the same for client [c]. *)
Definition sameFor (c : string) (st1 st2 : limiter) : Prop :=
  match redis st1, redis st2 with
  | Some s1, Some s2 =>
      ∀ x, s1 !! RlKey c x = s2 !! RlKey c x ∧ s1 !! DailyKey c x = s2 !! DailyKey c x
  | None, None => ipMap st1 !! c = ipMap st2 !! c
  | _, _ => False
  end.

(** The time to live given to a counter at its first increment. *)
Definition ttl (k : rkey) : Z :=
  match k with
  | RlKey _ _ => 65 * 1000
  | DailyKey _ _ => (86400 + 60) * 1000
  end.

(** Every counter of the store has a value of at least 1 and an expiry
    between the end of its window and that end plus its time to live. *)
Definition bounded_ttl (s : gmap rkey rval) : Prop :=
  ∀ k v, s !! k = Some v →
    1 ≤ rvalue v ∧ ∃ x, rexpiry v = Some x ∧ window_end k ≤ x < window_end k + ttl k.

(** The in-process budget of client [c] for epoch minute [k], when no
    later call is made before instant [tl]. *)
Definition minuteBudget (cfg : Config) (c : string) (k tl : Z) (m : gmap string entry) : Z :=
  if bool_decide (k < nowMin tl) then 0
  else
    match m !! c with
    | Some e =>
        if bool_decide (minute e = k) then MAX_REQUESTS_PER_MIN cfg - count e
        else MAX_REQUESTS_PER_MIN cfg
    | None => MAX_REQUESTS_PER_MIN cfg
    end.

End Accounting.

(** ** Inputs used in the examples *)

Module Examples.
Import Json.

(** [{candidates:[{content:{parts:[{text: t}]}}]}] *)
Definition envelope (t : json) : list (string * json) :=
  [("candidates",
    JArray [JObject [("content", JObject [("parts", JArray [JObject [("text", t)]])])]])].

Definition quoted (s : string) : string :=
  String dquote s ++ String dquote EmptyString.

(** The text [[{"name":"X"}]]. *)
Definition nameX : string := "[{" ++ quoted "name" ++ ":" ++ quoted "X" ++ "}]".

(** The reply text
    [{"candidates":[{"content":{"parts":[{"text":"[1]"}]}}]}]. *)
Definition candidateReply : string :=
  "{" ++ quoted "candidates" ++ ":[{" ++ quoted "content" ++ ":{" ++ quoted "parts"
    ++ ":[{" ++ quoted "text" ++ ":" ++ quoted "[1]" ++ "}]}}]}".

(** An upstream that cannot be reached. *)
Definition unreachable (url : string) (payload : option json) : Http.fetched :=
  Http.NetworkError.

(** The table of the serverless limiter after [n] requests of one
    client at instant 0. *)
Definition after (n : nat) (ip : string) : gmap string Serverless.entry :=
  Nat.iter n (λ m, (Serverless.rateLimit 0 ip m).2) ∅.

End Examples.

(** * Properties *)

(** ** Time arithmetic *)

Section ClockFacts.
Import Clock.

Lemma minuteKey_nowMin ms : minuteKey ms = nowMin ms.
Proof. unfold minuteKey, now_seconds, nowMin. rewrite Z.div_div by lia. done. Qed.

Lemma nowMin_bounds ms : nowMin ms * 60000 ≤ ms < (nowMin ms + 1) * 60000.
Proof.
  unfold nowMin. pose proof (Z.div_mod ms 60000).
  pose proof (Z.mod_pos_bound ms 60000). lia.
Qed.

Lemma utcDate_bounds ms : utcDate ms * 86400000 ≤ ms < (utcDate ms + 1) * 86400000.
Proof.
  unfold utcDate. pose proof (Z.div_mod ms 86400000).
  pose proof (Z.mod_pos_bound ms 86400000). lia.
Qed.

Lemma nowMin_mono t1 t2 : t1 ≤ t2 → nowMin t1 ≤ nowMin t2.
Proof. intros. unfold nowMin. apply Z.div_le_mono; lia. Qed.

End ClockFacts.

(** ** The shared store never shows an expired counter

    A counter is only read or incremented at instants that lie in the
    window named by its key, and its expiry (set at the first increment)
    lies beyond the end of that window. *)

Section RedisFacts.
Import Clock QuotaGuard.

Lemma wf_empty : wf ∅.
Proof. intros k v. by rewrite lookup_empty. Qed.

Lemma incr_expire_spec now k seconds s :
  wf s → now < window_end k → window_end k ≤ now + seconds * 1000 →
  ∃ s', incr_expire now k seconds s = (rcount s k + 1, s')
    ∧ wf s'
    ∧ rcount s' k = rcount s k + 1
    ∧ (∀ k', k' ≠ k → s' !! k' = s !! k').
Proof.
  intros Hwf Hlt Hend. unfold incr_expire, redis_incr, rcount.
  destruct (s !! k) as [v|] eqn:Hk.
  - destruct (Hwf _ _ Hk) as (Hv & x & Hx & Hwe).
    assert (live now v = true) as ->.
    { unfold live. rewrite Hx. apply bool_decide_eq_true. lia. }
    rewrite bool_decide_eq_false_2 by lia.
    eexists; split_and!; [done| |by rewrite lookup_insert_eq|].
    + intros k' v'. rewrite lookup_insert. case_decide; [|by apply Hwf].
      intros [= <-]; subst k'. simpl. split; [lia|]. eauto.
    + intros k' ?. by rewrite lookup_insert_ne.
  - rewrite bool_decide_eq_true_2 by done.
    unfold redis_expire. rewrite lookup_insert_eq. simpl.
    rewrite insert_insert_eq.
    eexists; split_and!; [done| |by rewrite lookup_insert_eq|].
    + intros k' v'. rewrite lookup_insert. case_decide; [|by apply Hwf].
      intros [= <-]; subst k'. simpl. split; [lia|]. eauto.
    + intros k' ?. by rewrite lookup_insert_ne.
Qed.

Lemma checkRateLimit_redis_unfold cfg now c s :
  checkRateLimit_redis cfg now c s =
    let '(n, s1) := incr_expire now (RlKey c (minuteKey now)) 65 s in
    if bool_decide (n > MAX_REQUESTS_PER_MIN cfg) then (Reject minute_limit, s1)
    else
      let '(d, s2) := incr_expire now (DailyKey c (utcDate now)) (86400 + 60) s1 in
      if bool_decide (d > MAX_DAILY_REQUESTS cfg) then (Reject daily_limit, s2)
      else (Admit, s2).
Proof.
  unfold checkRateLimit_redis, incr_expire.
  destruct (redis_incr now (RlKey c (minuteKey now)) s) as [n s1].
  case_bool_decide; [done|].
  by destruct (redis_incr now (DailyKey c (utcDate now)) _) as [d s2].
Qed.

(** The Redis branch in terms of counter values. *)
Lemma checkRateLimit_redis_spec cfg now c s :
  wf s →
  let n := rcount s (RlKey c (nowMin now)) + 1 in
  let d := rcount s (DailyKey c (utcDate now)) + 1 in
  ∃ s', wf s' ∧
    checkRateLimit_redis cfg now c s =
      ((if bool_decide (n > MAX_REQUESTS_PER_MIN cfg) then Reject minute_limit
        else if bool_decide (d > MAX_DAILY_REQUESTS cfg) then Reject daily_limit
        else Admit), s')
    ∧ (∀ k, rcount s' k =
         if decide (k = RlKey c (nowMin now)) then n
         else if decide (k = DailyKey c (utcDate now) ∧ n ≤ MAX_REQUESTS_PER_MIN cfg) then d
         else rcount s k).
Proof.
  intros Hwf n d. rewrite checkRateLimit_redis_unfold, minuteKey_nowMin.
  pose proof (nowMin_bounds now) as Hm. pose proof (utcDate_bounds now) as Hd.
  destruct (incr_expire_spec now (RlKey c (nowMin now)) 65 s Hwf)
    as (s1 & -> & Hwf1 & Hn1 & Hother1); [simpl; lia..|].
  fold n. case_bool_decide as Hmin.
  - exists s1. split_and!; [done..|]. intros k.
    case_decide as Hk; [by subst k|].
    rewrite decide_False by lia. unfold rcount. by rewrite Hother1.
  - destruct (incr_expire_spec now (DailyKey c (utcDate now)) (86400 + 60) s1 Hwf1)
      as (s2 & -> & Hwf2 & Hn2 & Hother2); [simpl; lia..|].
    assert (rcount s1 (DailyKey c (utcDate now)) = rcount s (DailyKey c (utcDate now))) as Hsame.
    { unfold rcount. by rewrite Hother1. }
    rewrite Hsame in *. fold d in Hn2 |- *.
    exists s2. split_and!; [done| |].
    + by repeat case_bool_decide.
    + intros k. case_decide as Hk.
      * subst k. unfold rcount. rewrite Hother2 by done. apply Hn1.
      * case_decide as Hk2.
        -- destruct Hk2 as [-> _]. done.
        -- assert (k ≠ DailyKey c (utcDate now)) by (intros ->; apply Hk2; split; [done|lia]).
           unfold rcount. rewrite Hother2, Hother1 by done. done.
Qed.

End RedisFacts.

(** ** The in-process branch in terms of counter values *)

Section MemFacts.
Import Clock QuotaGuard.

Lemma verdict_minute cfg n d :
  verdict cfg n d = Reject minute_limit ↔ n > MAX_REQUESTS_PER_MIN cfg.
Proof. unfold verdict. repeat case_bool_decide; naive_solver. Qed.

Lemma checkRateLimit_mem_spec cfg now c (m : gmap string entry) :
  let e0 := default (mkEntry (nowMin now) 0 (utcDate now) 0) (m !! c) in
  let n := (if bool_decide (minute e0 ≠ nowMin now) then 0 else count e0) + 1 in
  let d := dayCount e0 + 1 in
  checkRateLimit_mem cfg now c m =
    (verdict cfg n d, <[c := mkEntry (nowMin now) n (day e0) d]> m).
Proof.
  intros e0 n d. unfold checkRateLimit_mem, verdict. fold e0. subst n d.
  destruct (decide (minute e0 ≠ nowMin now)) as [Hne|Heq].
  - rewrite !(bool_decide_eq_true_2 (minute e0 ≠ nowMin now)) by done.
    cbn [minute count day dayCount]. by repeat case_bool_decide.
  - rewrite !(bool_decide_eq_false_2 (minute e0 ≠ nowMin now)) by done.
    apply dec_stable in Heq. cbn [minute count day dayCount]. rewrite Heq.
    by repeat case_bool_decide.
Qed.

End MemFacts.

(** ** The two branches side by side *)

Section Agreement.
Import Clock QuotaGuard.

Local Ltac key_ne :=
  first [ congruence | intros [=]; lia | intros [? ?]; congruence ].


Lemma agree_empty P d tl : agree P d tl ∅ ∅.
Proof.
  split; [apply wf_empty|]. intros c. rewrite lookup_empty.
  split; [intros k|intros _]; unfold rcount; by rewrite lookup_empty.
Qed.

Lemma agree_weaken (P Q : string → Prop) d tl m s :
  (∀ c, Q c → P c) → agree P d tl m s → agree Q d tl m s.
Proof.
  intros HQP [Hwf Hag]. split; [done|]. intros c. specialize (Hag c).
  destruct (m !! c).
  - destruct Hag as (? & ? & ? & Hd). split_and!; [done..|]. intros HQ. apply Hd, HQP, HQ.
  - destruct Hag as (? & Hd). split; [done|]. intros HQ. apply Hd, HQP, HQ.
Qed.

Lemma agree_step cfg P d tl m s now c :
  agree P d tl m s → tl ≤ now → (P c → utcDate now = d) →
  let n := rcount s (RlKey c (nowMin now)) + 1 in
  ∃ r1 r2 m' s',
    checkRateLimit_mem cfg now c m = (r1, m')
    ∧ checkRateLimit_redis cfg now c s = (r2, s')
    ∧ (r1 = Reject minute_limit ↔ n > MAX_REQUESTS_PER_MIN cfg)
    ∧ (r2 = Reject minute_limit ↔ n > MAX_REQUESTS_PER_MIN cfg)
    ∧ (P c → r1 = r2)
    ∧ count <$> m' !! c = Some n
    ∧ (∀ c' k, rcount s' (RlKey c' k) =
         if decide (c' = c ∧ k = nowMin now) then n else rcount s (RlKey c' k))
    ∧ agree (λ x, P x ∧ (x = c → r1 ≠ Reject minute_limit)) d now m' s'.
Proof.
  intros [Hwf Hag] Htl Hd.
  destruct (checkRateLimit_redis_spec cfg now c s Hwf) as (s' & Hwf' & Hr & Hs').
  pose proof (checkRateLimit_mem_spec cfg now c m) as Hm.
  pose proof (nowMin_mono _ _ Htl) as Hmono.
  cbv zeta in Hm, Hr, Hs'.
  set (e0 := default (mkEntry (nowMin now) 0 (utcDate now) 0) (m !! c)) in *.
  set (n := (if bool_decide (minute e0 ≠ nowMin now) then 0 else count e0) + 1) in *.
  assert (rcount s (RlKey c (nowMin now)) + 1 = n) as Hn.
  { subst n e0. pose proof (Hag c) as Hc. destruct (m !! c) as [e|]; simpl.
    - destruct Hc as (Hle & Hcnt & Hzero & _).
      destruct (decide (minute e = nowMin now)) as [Heq|Hne].
      + rewrite bool_decide_eq_false_2 by naive_solver. by rewrite <-Heq, Hcnt.
      + rewrite bool_decide_eq_true_2 by done. rewrite Hzero by lia. done.
    - destruct Hc as [Hzero _]. rewrite Hzero.
      by rewrite bool_decide_eq_false_2 by naive_solver. }
  rewrite Hn in *. clear Hn.
  assert (P c → utcDate now = d ∧ rcount s (DailyKey c d) = dayCount e0) as Hday.
  { intros HP. split; [by apply Hd|].
    subst e0. pose proof (Hag c) as Hc. destruct (m !! c) as [e|]; simpl.
    - by apply Hc.
    - by apply Hc. }
  fold (verdict cfg n (rcount s (DailyKey c (utcDate now)) + 1)) in Hr.
  eexists _, _, _, s'. split_and!; [exact Hm|exact Hr|..].
  - by rewrite verdict_minute.
  - by rewrite verdict_minute.
  - intros HP. destruct (Hday HP) as [-> <-]. done.
  - by rewrite lookup_insert_eq.
  - intros c' k. rewrite Hs'. destruct (decide (c' = c ∧ k = nowMin now)) as [[-> ->]|Hne].
    + by rewrite decide_True.
    + rewrite !decide_False
        by (first [intros [? ?]; congruence | intros [= ? ?]; by apply Hne]).
      done.
  - split; [done|]. intros c'. destruct (decide (c' = c)) as [->|Hne].
    + rewrite lookup_insert_eq. simpl. split_and!.
      * lia.
      * rewrite Hs'. by rewrite decide_True.
      * intros k Hk. rewrite Hs'. rewrite !decide_False by key_ne.
        pose proof (Hag c) as Hc. destruct (m !! c) as [e|].
        -- apply Hc. lia.
        -- apply Hc.
      * intros [HP Hnot]. specialize (Hnot eq_refl).
        rewrite verdict_minute in Hnot. destruct (Hday HP) as [Hd' Hdc].
        rewrite Hs'. rewrite decide_False by done.
        rewrite decide_True by (split; [by rewrite Hd'|lia]).
        by rewrite Hd', Hdc.
    + rewrite lookup_insert_ne by done.
      pose proof (Hag c') as Hc. destruct (m !! c') as [e|].
      * destruct Hc as (Hle & Hcnt & Hzero & Hdc). split_and!.
        -- lia.
        -- rewrite Hs'. by rewrite !decide_False by key_ne.
        -- intros k Hk. rewrite Hs'. rewrite !decide_False by key_ne. by apply Hzero.
        -- intros [HP _]. rewrite Hs'. rewrite !decide_False by key_ne. by apply Hdc.
      * destruct Hc as [Hzero Hdc]. split.
        -- intros k. rewrite Hs'. rewrite !decide_False by key_ne. apply Hzero.
        -- intros [HP _]. rewrite Hs'. rewrite !decide_False by key_ne. by apply Hdc.
Qed.

Lemma run_shared_cons cfg c t calls s x :
  run cfg ((c, t) :: calls) (mkLimiter (Some s) x) =
    (checkRateLimit_redis cfg t c s).1
      :: run cfg calls (mkLimiter (Some (checkRateLimit_redis cfg t c s).2) x).
Proof.
  simpl. unfold checkRateLimit. simpl.
  by destruct (checkRateLimit_redis cfg t c s).
Qed.

Lemma run_local_cons cfg c t calls m :
  run cfg ((c, t) :: calls) (mkLimiter None m) =
    (checkRateLimit_mem cfg t c m).1
      :: run cfg calls (mkLimiter None (checkRateLimit_mem cfg t c m).2).
Proof.
  simpl. unfold checkRateLimit. simpl.
  by destruct (checkRateLimit_mem cfg t c m).
Qed.

Lemma run_agree cfg d calls : ∀ P tl m s x,
  agree P d tl m s →
  Sorted Z.le (calls.*2) → Forall (Z.le tl) (calls.*2) →
  Forall (λ ct, utcDate ct.2 = d) calls →
  let shared := run cfg calls (mkLimiter (Some s) x) in
  let local := run cfg calls (mkLimiter None m) in
  (∀ i, shared !! i = Some (Reject minute_limit)
        ↔ local !! i = Some (Reject minute_limit))
  ∧ (∀ i c t, calls !! i = Some (c, t) → P c →
       (∀ j t', (j < i)%nat → calls !! j = Some (c, t') →
                local !! j ≠ Some (Reject minute_limit)) →
       shared !! i = local !! i).
Proof.
  induction calls as [|[c0 t0] calls IH]; intros P tl m s x Hag Hsort Hge Hday.
  { simpl. split; [done|]. intros i c t. by rewrite lookup_nil. }
  rewrite fmap_cons in Hsort, Hge. simpl in Hsort, Hge.
  apply Forall_cons in Hge as [Hge0 _]. apply Forall_cons in Hday as [Hd0 Hday].
  pose proof (Sorted_extends Z.le_trans Hsort) as Hext.
  apply Sorted_inv in Hsort as [Hsort _].
  destruct (agree_step cfg P d tl m s t0 c0 Hag Hge0 (λ _, Hd0))
    as (r1 & r2 & m' & s' & Hm & Hs & Hmin1 & Hmin2 & Heq & _ & _ & Hag').
  assert (r1 = Reject minute_limit ↔ r2 = Reject minute_limit) as Hmin
    by (by rewrite Hmin1, Hmin2).
  cbv zeta. rewrite run_shared_cons, run_local_cons, Hm, Hs. simpl.
  destruct (IH _ _ _ _ x Hag' Hsort Hext Hday) as [IHmin IHeq].
  split.
  - intros [|i]; simpl; [|apply IHmin]. split; intros [= ->]; f_equal; by apply Hmin.
  - intros [|i] c t Hi HP Hprev; simpl in *.
    + injection Hi as -> ->. f_equal. symmetry. by apply Heq.
    + apply (IHeq i c t Hi).
      * split; [done|]. intros ->. intros ->.
        by apply (Hprev 0%nat t0); [lia|..].
      * intros j t' Hj Hcj. apply (Hprev (S j) t'); [lia|done].
Qed.

Lemma daily_empty Q : dailyBelow ∅ ∅ ∧ dailyEqual Q ∅ ∅.
Proof.
  split; [intros c d|intros c d _];
    unfold rcount, dayCountOf; by rewrite !lookup_empty.
Qed.

(** One call on both branches, without any assumption on the dates. *)
Lemma daily_step cfg (Q : string → Z → Prop) d tl m s now c :
  agree (λ _, False) d tl m s → tl ≤ now →
  dailyBelow m s → dailyEqual Q m s →
  ∃ r1 r2 m' s',
    checkRateLimit_mem cfg now c m = (r1, m')
    ∧ checkRateLimit_redis cfg now c s = (r2, s')
    ∧ (r2 = Reject minute_limit ↔ r1 = Reject minute_limit)
    ∧ (r2 = r1 ∨ (r2 = Admit ∧ r1 = Reject daily_limit))
    ∧ (Q c (utcDate now) → r2 = r1)
    ∧ agree (λ _, False) d now m' s'
    ∧ dailyBelow m' s'
    ∧ dailyEqual (λ x y, Q x y ∧ (x = c → y = utcDate now ∧ r1 ≠ Reject minute_limit))
        m' s'.
Proof.
  intros Hag Htl Hbelow Hequal.
  destruct (agree_step cfg (λ _, False) d tl m s now c Hag Htl (λ F, False_ind _ F))
    as (r1 & r2 & m' & s' & Hm & Hs & Hmin1 & Hmin2 & _ & Hcount & _ & Hag').
  apply (agree_weaken _ (λ _, False)) in Hag'; [|by intros ? []].
  destruct Hag as [Hwf _].
  destruct (checkRateLimit_redis_spec cfg now c s Hwf) as (s'' & _ & Hr & Hs').
  pose proof (checkRateLimit_mem_spec cfg now c m) as Hm'.
  cbv zeta in *.
  set (e0 := default (mkEntry (nowMin now) 0 (utcDate now) 0) (m !! c)) in *.
  set (n := rcount s (RlKey c (nowMin now)) + 1) in *.
  rewrite Hs in Hr. injection Hr as Hr2 Hss. subst s''.
  rewrite Hm in Hm'. injection Hm' as Hr1 Hmm. subst m'.
  rewrite lookup_insert_eq in Hcount. simpl in Hcount. injection Hcount as Hn.
  rewrite Hn in Hr1, Hag', Hm.
  fold (verdict cfg n (rcount s (DailyKey c (utcDate now)) + 1)) in Hr2.
  assert (dayCount e0 = dayCountOf m c) as Hday.
  { subst e0. unfold dayCountOf. by destruct (m !! c). }
  rewrite Hday in Hr1, Hag', Hm.
  pose proof (Hbelow c (utcDate now)) as Hle.
  eexists r1, r2, _, s'.
  split_and!; [exact Hm|done|by rewrite Hmin1, Hmin2| | |done| |].
  - subst r1 r2. unfold verdict. repeat case_bool_decide; try lia; auto.
  - intros HQ. rewrite (Hequal _ _ HQ) in Hr2. congruence.
  - intros c' d'. rewrite Hs'. rewrite decide_False by done.
    unfold dayCountOf at 1. destruct (decide (c' = c)) as [->|Hne].
    + rewrite lookup_insert_eq. simpl. pose proof (Hbelow c d').
      destruct (decide (DailyKey c d' = DailyKey c (utcDate now)
                        ∧ n ≤ MAX_REQUESTS_PER_MIN cfg)) as [[[= ->] _]|_]; lia.
    + rewrite lookup_insert_ne by done. fold (dayCountOf m c').
      rewrite decide_False by (intros [[=] _]; done). apply Hbelow.
  - intros c' d' [HQ Hc']. rewrite Hs'. rewrite decide_False by done.
    unfold dayCountOf at 1. destruct (decide (c' = c)) as [->|Hne].
    + rewrite lookup_insert_eq. simpl. destruct (Hc' eq_refl) as [-> Hnot].
      rewrite Hmin1 in Hnot.
      rewrite decide_True by (split; [done|lia]).
      by rewrite (Hequal _ _ HQ).
    + rewrite lookup_insert_ne by done. fold (dayCountOf m c').
      rewrite decide_False by (intros [[=] _]; done). by apply Hequal.
Qed.

(** The decisions of the two branches on calls in chronological order. *)
Lemma run_daily cfg d calls : ∀ Q tl m s x,
  agree (λ _, False) d tl m s → dailyBelow m s → dailyEqual Q m s →
  Sorted Z.le (calls.*2) → Forall (Z.le tl) (calls.*2) →
  let shared := run cfg calls (mkLimiter (Some s) x) in
  let local := run cfg calls (mkLimiter None m) in
  (∀ i, shared !! i = Some (Reject minute_limit)
        ↔ local !! i = Some (Reject minute_limit))
  ∧ (∀ i, shared !! i = local !! i
          ∨ (shared !! i = Some Admit ∧ local !! i = Some (Reject daily_limit)))
  ∧ (∀ i c t, calls !! i = Some (c, t) → Q c (utcDate t) →
       (∀ j t', (j < i)%nat → calls !! j = Some (c, t') →
                utcDate t' = utcDate t ∧ local !! j ≠ Some (Reject minute_limit)) →
       shared !! i = local !! i).
Proof.
  induction calls as [|[c0 t0] calls IH]; intros Q tl m s x Hag Hbelow Hequal Hsort Hge.
  { simpl. split_and!; [done|by left|]. intros i c t. by rewrite lookup_nil. }
  rewrite fmap_cons in Hsort, Hge. simpl in Hsort, Hge.
  apply Forall_cons in Hge as [Hge0 _].
  pose proof (Sorted_extends Z.le_trans Hsort) as Hext.
  apply Sorted_inv in Hsort as [Hsort _].
  destruct (daily_step cfg Q d tl m s t0 c0 Hag Hge0 Hbelow Hequal)
    as (r1 & r2 & m' & s' & Hm & Hs & Hmin & Hor & Heq & Hag' & Hbelow' & Hequal').
  cbv zeta. rewrite run_shared_cons, run_local_cons, Hm, Hs. simpl.
  destruct (IH _ _ _ _ x Hag' Hbelow' Hequal' Hsort Hext) as (IHmin & IHor & IHeq).
  split_and!.
  - intros [|i]; simpl; [|apply IHmin]. split; intros [= ->]; f_equal; by apply Hmin.
  - intros [|i]; simpl; [|apply IHor].
    destruct Hor as [->|[-> ->]]; [by left|by right].
  - intros [|i] c t Hi HQ Hprev; simpl in *.
    + injection Hi as -> ->. f_equal. by apply Heq.
    + apply (IHeq i c t Hi).
      * split; [done|]. intros ->.
        destruct (Hprev 0%nat t0) as [Hd0 Hnot]; [lia|done|].
        split; [done|]. intros ->. done.
      * intros j t' Hj Hcj. apply (Hprev (S j) t'); [lia|done].
Qed.

End Agreement.

(** ** Shared store against in-process table *)

Section VariantsCompared.
Import Clock QuotaGuard.

(** C1, as stated, fails: with a ceiling of 1 per minute and 2 per day,
    three calls of one client on 1970-01-01 (two in the first minute, one
    in the second) are answered admit, [minute_limit], admit by the
    shared-store branch and admit, [minute_limit], [daily_limit] by the
    in-process branch: the in-process branch has charged the rejected
    call to the daily counter, the shared-store branch has not. *)
Lemma C1_counterexample :
  let cfg := mkConfig 1 2 in
  let calls := [("a", 0); ("a", 1000); ("a", 60000)] in
  Sorted Z.le (calls.*2)
  ∧ Forall (λ ct, utcDate ct.2 = 0) calls
  ∧ run cfg calls sharedStore = [Admit; Reject minute_limit; Admit]
  ∧ run cfg calls inProcess = [Admit; Reject minute_limit; Reject daily_limit]
  ∧ run cfg calls sharedStore ≠ run cfg calls inProcess.
Proof.
  cbv zeta. split_and!.
  - repeat constructor; simpl; lia.
  - repeat constructor.
  - by vm_compute.
  - by vm_compute.
  - by vm_compute.
Qed.

(** C1 (amended): for calls in chronological order, both branches
    started empty, (1) a call is rejected with [minute_limit] by the
    shared-store branch exactly when it is by the in-process branch;
    (2) on every call the two branches return the same decision, or else
    the shared-store branch admits and the in-process branch rejects
    with [daily_limit]; and (3) the two branches return the same
    decision for every call of a client all of whose earlier calls fell
    on the UTC date of this call and none of whose earlier calls was
    rejected with [minute_limit]. *)
Theorem C1_variants_agree_up_to_the_daily_count cfg (calls : list (string * Z)) :
  Sorted Z.le (calls.*2) →
  let shared := run cfg calls sharedStore in
  let local := run cfg calls inProcess in
  (∀ i, shared !! i = Some (Reject minute_limit)
        ↔ local !! i = Some (Reject minute_limit))
  ∧ (∀ i, shared !! i = local !! i
          ∨ (shared !! i = Some Admit ∧ local !! i = Some (Reject daily_limit)))
  ∧ (∀ i c t, calls !! i = Some (c, t) →
       (∀ j t', (j < i)%nat → calls !! j = Some (c, t') →
                utcDate t' = utcDate t ∧ local !! j ≠ Some (Reject minute_limit)) →
       shared !! i = local !! i).
Proof.
  intros Hsort shared local.
  assert (∃ tl, Forall (Z.le tl) (calls.*2)) as [tl Htl].
  { destruct calls as [|[c0 t0] calls]; [by exists 0|].
    exists t0. rewrite fmap_cons. simpl in *. constructor; [done|].
    by apply (Sorted_extends Z.le_trans). }
  destruct (daily_empty (λ _ _, True)) as [Hbelow Hequal].
  destruct (run_daily cfg 0 calls (λ _ _, True) tl ∅ ∅ ∅
              (agree_empty _ _ _) Hbelow Hequal Hsort Htl) as (Hmin & Hor & Heq).
  split_and!; [done|done|]. intros i c t Hi Hprev. by apply (Heq i c t).
Qed.

(** The third call of client [a], in the minute after its first two,
    which were both admitted. *)
Lemma C1_variants_agree_up_to_the_daily_count_witness :
  let cfg := mkConfig 2 5 in
  let calls := [("a", 0); ("a", 1000); ("b", 2000); ("a", 60000)] in
  Sorted Z.le (calls.*2)
  ∧ calls !! 1%nat = Some ("a", 1000)
  ∧ (∀ j t', (j < 3)%nat → calls !! j = Some ("a", t') →
       utcDate t' = utcDate 60000
       ∧ run cfg calls inProcess !! j ≠ Some (Reject minute_limit))
  ∧ run cfg calls sharedStore !! 3%nat = run cfg calls inProcess !! 3%nat.
Proof.
  cbv zeta.
  assert (Sorted Z.le ([("a", 0); ("a", 1000); ("b", 2000); ("a", 60000)].*2)) as Hs.
  { repeat constructor; simpl; lia. }
  assert (∀ j t', (j < 3)%nat →
            [("a", 0); ("a", 1000); ("b", 2000); ("a", 60000)] !! j = Some ("a", t') →
            utcDate t' = utcDate 60000
            ∧ run (mkConfig 2 5) [("a", 0); ("a", 1000); ("b", 2000); ("a", 60000)]
                inProcess !! j ≠ Some (Reject minute_limit)) as Hprev.
  { intros [|[|[|j]]] t' Hj Hc; simpl in Hc; [| |discriminate|lia].
    - injection Hc as <-. split; [reflexivity|]. vm_compute. discriminate.
    - injection Hc as <-. split; [reflexivity|]. vm_compute. discriminate. }
  split_and!; [done|reflexivity|done|].
  exact (proj2 (proj2 (C1_variants_agree_up_to_the_daily_count (mkConfig 2 5) _ Hs))
           3%nat "a" 60000 eq_refl Hprev).
Defined.

(** C2, as stated, fails for the shared store: the second call of a
    client within one minute, with a ceiling of 1, is rejected with
    [minute_limit] and the client's daily counter is 1 before and 1
    after it. *)
Lemma C2_counterexample :
  let cfg := mkConfig 1 2 in
  let s1 := (checkRateLimit_redis cfg 0 "a" ∅).2 in
  let r2 := checkRateLimit_redis cfg 1000 "a" s1 in
  r2.1 = Reject minute_limit
  ∧ redis_get 1000 (DailyKey "a" (utcDate 1000)) s1 = Some 1
  ∧ redis_get 1000 (DailyKey "a" (utcDate 1000)) r2.2 = Some 1.
Proof. by vm_compute. Qed.

(** C2 (amended): a call that the in-process branch rejects with
    [minute_limit] has incremented that client's daily counter; a call
    that the shared-store branch rejects with [minute_limit] returns
    before the daily increment and leaves every daily counter as it
    was. *)
Theorem C2_minute_rejection_and_daily_counter cfg now c :
  (∀ m m', checkRateLimit_mem cfg now c m = (Reject minute_limit, m') →
     dayCountOf m' c = dayCountOf m c + 1)
  ∧ (∀ s s', checkRateLimit_redis cfg now c s = (Reject minute_limit, s') →
       ∀ c' d, s' !! DailyKey c' d = s !! DailyKey c' d).
Proof.
  split.
  - intros m m'. rewrite checkRateLimit_mem_spec. intros [= _ <-].
    unfold dayCountOf. rewrite lookup_insert_eq. simpl.
    by destruct (m !! c).
  - intros s s'. unfold checkRateLimit_redis, redis_incr, redis_expire.
    intros Hs c' d.
    repeat (first [case_match | case_bool_decide]; simplify_eq/=;
            rewrite ?lookup_insert_eq, ?insert_insert_eq in *; simplify_eq/=);
      by rewrite ?lookup_insert_ne.
Qed.

Lemma C2_minute_rejection_and_daily_counter_witness :
  let cfg := mkConfig 1 2 in
  let m1 := (checkRateLimit_mem cfg 0 "a" ∅).2 in
  let m2 := (checkRateLimit_mem cfg 1000 "a" m1).2 in
  checkRateLimit_mem cfg 1000 "a" m1 = (Reject minute_limit, m2)
  ∧ dayCountOf m2 "a" = dayCountOf m1 "a" + 1.
Proof.
  cbv zeta.
  assert (checkRateLimit_mem (mkConfig 1 2) 1000 "a" (checkRateLimit_mem (mkConfig 1 2) 0 "a" ∅).2
          = (Reject minute_limit,
             (checkRateLimit_mem (mkConfig 1 2) 1000 "a"
                (checkRateLimit_mem (mkConfig 1 2) 0 "a" ∅).2).2)) as H
    by (by vm_compute).
  split; [exact H|].
  exact (proj1 (C2_minute_rejection_and_daily_counter (mkConfig 1 2) 1000 "a") _ _ H).
Defined.

(** C3: the in-process daily counter is never reset. With a daily
    ceiling of 3, three calls on 1970-01-01 (in three different minutes)
    are admitted and the first call on 1970-01-02 is rejected with
    [daily_limit] by the in-process branch, while the shared-store branch,
    whose daily key carries the date, admits it. *)
Theorem C3_in_process_daily_count_survives_date_change :
  let cfg := mkConfig 60 3 in
  let calls := [("a", 0); ("a", 60000); ("a", 120000); ("a", 86400000)] in
  utcDate 120000 = 0 ∧ utcDate 86400000 = 1
  ∧ run cfg calls inProcess = [Admit; Admit; Admit; Reject daily_limit]
  ∧ run cfg calls sharedStore = [Admit; Admit; Admit; Admit].
Proof. by vm_compute. Qed.

Lemma run_length cfg calls : ∀ st, length (run cfg calls st) = length calls.
Proof.
  induction calls as [|[c t] calls IH]; intros st; [done|].
  simpl. destruct (checkRateLimit cfg t c st). simpl. by rewrite IH.
Qed.

(** The part of C3 that both branches satisfy: with a daily ceiling of 3
    (and a ceiling per minute of at least 1), four calls of a client on one
    UTC date, each in a later minute than the one before, are answered
    admit, admit, admit, [daily_limit]. *)
Lemma fourth_call_of_a_date_is_rejected cfg st c t1 t2 t3 t4 :
  st = sharedStore ∨ st = inProcess →
  MAX_DAILY_REQUESTS cfg = 3 → 1 ≤ MAX_REQUESTS_PER_MIN cfg →
  nowMin t1 < nowMin t2 → nowMin t2 < nowMin t3 → nowMin t3 < nowMin t4 →
  utcDate t1 = utcDate t4 →
  run cfg [(c, t1); (c, t2); (c, t3); (c, t4)] st
  = [Admit; Admit; Admit; Reject daily_limit].
Proof.
  intros Hst Hday Hmin H12 H23 H34 Hdate.
  assert (run cfg [(c, t1); (c, t2); (c, t3); (c, t4)] inProcess
          = [Admit; Admit; Admit; Reject daily_limit]) as Hlocal.
  { unfold inProcess.
    rewrite !run_local_cons, !checkRateLimit_mem_spec. cbn [fst snd run].
    rewrite !lookup_insert_eq, lookup_empty. simpl.
    destruct (bool_decide (nowMin t1 ≠ nowMin t1)).
    all: rewrite !(bool_decide_eq_true_2 (_ ≠ _)) by lia.
    all: unfold verdict; rewrite Hday; simpl.
    all: rewrite !(bool_decide_eq_false_2 (1 > MAX_REQUESTS_PER_MIN cfg)) by lia.
    all: done. }
  destruct Hst as [-> | ->]; [|done].
  assert (t1 < t2 ∧ t2 < t3 ∧ t3 < t4) as (L12 & L23 & L34).
  { split_and!; apply Z.nle_gt; intros Hle; apply nowMin_mono in Hle; lia. }
  assert (∀ t, t1 ≤ t ≤ t4 → utcDate t = utcDate t1) as Hsame.
  { intros t [Ha Hb]. unfold utcDate in *.
    pose proof (Z.div_le_mono t1 t 86400000). pose proof (Z.div_le_mono t t4 86400000). lia. }
  destruct (run_agree cfg (utcDate t1) [(c, t1); (c, t2); (c, t3); (c, t4)]
              (λ _, True) t1 ∅ ∅ ∅ (agree_empty _ _ _)) as [_ Heq].
  { repeat constructor; simpl; lia. }
  { repeat constructor; simpl; lia. }
  { repeat constructor; simpl; apply Hsame; lia. }
  cbv zeta in Heq. fold sharedStore inProcess in Heq. rewrite Hlocal in Heq.
  rewrite <-Hlocal. apply list_eq. intros i.
  destruct (decide (i < 4)%nat) as [Hi|Hi].
  - destruct ([(c, t1); (c, t2); (c, t3); (c, t4)] !! i) as [[c' t']|] eqn:Hc.
    + assert (c' = c) as ->.
      { destruct i as [|[|[|[|i]]]]; simpl in Hc; by simplify_eq. }
      rewrite Hlocal. apply (Heq i c t' Hc); [done|].
      intros j t'' Hj _. by destruct j as [|[|[|[|j]]]].
    + apply lookup_ge_None in Hc. simpl in Hc. lia.
  - rewrite !lookup_ge_None_2; [done|rewrite run_length; simpl; lia..].
Qed.

End VariantsCompared.

(** ** Minute windows *)

Section MinuteWindows.
Import Clock QuotaGuard.

Lemma callsInMinute_snoc hist c0 t0 c k :
  callsInMinute (hist ++ [(c0, t0)]) c k =
    callsInMinute hist c k + (if decide (c = c0 ∧ k = nowMin t0) then 1 else 0).
Proof.
  unfold callsInMinute. rewrite filter_app, length_app, filter_cons, filter_nil. simpl.
  rewrite minuteKey_nowMin.
  destruct (decide (c = c0 ∧ k = nowMin t0)) as [[-> ->]|Hne].
  - rewrite decide_True by done. simpl. lia.
  - rewrite decide_False by (intros [? ?]; apply Hne; by split). simpl. lia.
Qed.


Lemma redis_get_rcount now k s :
  wf s → now < window_end k → default 0 (redis_get now k s) = rcount s k.
Proof.
  intros Hwf Hlt. unfold redis_get, rcount. destruct (s !! k) as [v|] eqn:Hk; [|done].
  destruct (Hwf _ _ Hk) as (_ & x & Hx & Hle). unfold live. rewrite Hx.
  by rewrite bool_decide_eq_true_2 by lia.
Qed.

Lemma trace_shared_cons cfg c t calls s x :
  trace cfg ((c, t) :: calls) (mkLimiter (Some s) x) =
    let r := checkRateLimit_redis cfg t c s in
    (r.1, minuteCount t c (mkLimiter (Some r.2) x))
      :: trace cfg calls (mkLimiter (Some r.2) x).
Proof.
  simpl. unfold checkRateLimit. simpl.
  by destruct (checkRateLimit_redis cfg t c s).
Qed.

Lemma trace_local_cons cfg c t calls m :
  trace cfg ((c, t) :: calls) (mkLimiter None m) =
    let r := checkRateLimit_mem cfg t c m in
    (r.1, minuteCount t c (mkLimiter None r.2))
      :: trace cfg calls (mkLimiter None r.2).
Proof.
  simpl. unfold checkRateLimit. simpl.
  by destruct (checkRateLimit_mem cfg t c m).
Qed.

(** Both branches count the calls of a client per epoch minute. *)
Lemma trace_counts cfg d calls : ∀ hist tl m s x,
  agree (λ _, False) d tl m s →
  (∀ c k, rcount s (RlKey c k) = callsInMinute hist c k) →
  Sorted Z.le (calls.*2) → Forall (Z.le tl) (calls.*2) →
  ∀ i c t, calls !! i = Some (c, t) →
  let n := callsInMinute (hist ++ take (S i) calls) c (nowMin t) in
  ∃ r1 r2,
    trace cfg calls (mkLimiter (Some s) x) !! i = Some (r1, n)
    ∧ trace cfg calls (mkLimiter None m) !! i = Some (r2, n)
    ∧ (r1 = Reject minute_limit ↔ n > MAX_REQUESTS_PER_MIN cfg)
    ∧ (r2 = Reject minute_limit ↔ n > MAX_REQUESTS_PER_MIN cfg).
Proof.
  induction calls as [|[c0 t0] calls IH]; intros hist tl m s x Hag Hcnt Hsort Hge i c t Hi.
  { by rewrite lookup_nil in Hi. }
  rewrite fmap_cons in Hsort, Hge. simpl in Hsort, Hge.
  apply Forall_cons in Hge as [Hge0 _].
  pose proof (Sorted_extends Z.le_trans Hsort) as Hext.
  apply Sorted_inv in Hsort as [Hsort _].
  destruct (agree_step cfg (λ _, False) d tl m s t0 c0 Hag Hge0 (λ F, False_ind _ F))
    as (r1 & r2 & m' & s' & Hm & Hs & Hmin1 & Hmin2 & _ & Hc & Hs' & Hag').
  cbv zeta in *.
  apply (agree_weaken _ (λ _, False)) in Hag'; [|by intros ? []].
  assert (∀ c k, rcount s' (RlKey c k) = callsInMinute (hist ++ [(c0, t0)]) c k) as Hcnt'.
  { intros c' k. rewrite Hs', callsInMinute_snoc.
    destruct (decide (c' = c0 ∧ k = nowMin t0)) as [[-> ->]|]; rewrite !Hcnt; lia. }
  rewrite trace_shared_cons, trace_local_cons, Hm, Hs. cbv zeta. simpl fst. simpl snd.
  destruct i as [|i].
  - simpl in Hi. injection Hi as -> ->. simpl take.
    exists r2, r1. rewrite <-Hcnt'. rewrite Hs', decide_True by done.
    split_and!; [|by (simpl; unfold minuteCount; simpl; rewrite Hc)|done..].
    simpl. unfold minuteCount. simpl. rewrite minuteKey_nowMin.
    rewrite redis_get_rcount.
    + rewrite Hs'. by rewrite decide_True.
    + apply Hag'.
    + simpl. pose proof (nowMin_bounds t). lia.
  - simpl in Hi. simpl lookup.
    destruct (IH (hist ++ [(c0, t0)])%list t0 m' s' x Hag' Hcnt' Hsort Hext i c t Hi)
      as (q1 & q2 & H1 & H2 & H3 & H4).
    cbv zeta in *. rewrite <-app_assoc in H1, H2, H3, H4. simpl in H1, H2, H3, H4.
    by exists q1, q2.
Qed.

Lemma callsInMinute_none (l : list (string * Z)) c k :
  (∀ j t', l !! j = Some (c, t') → minuteKey t' ≠ k) → callsInMinute l c k = 0.
Proof.
  unfold callsInMinute. induction l as [|[c0 t0] l IH]; intros Hl; [done|].
  rewrite filter_cons. simpl. rewrite decide_False.
  - apply IH. intros j t'. apply (Hl (S j)).
  - intros [-> Hk]. by apply (Hl 0%nat t0).
Qed.

Lemma rateLimit_same_window now ip (m : gmap string Serverless.entry) k s :
  m !! ip = Some (Serverless.mkEntry k s) → now - s ≤ 60000 →
  Serverless.rateLimit now ip m =
    (bool_decide (k + 1 > 60), <[ip := Serverless.mkEntry (k + 1) s]> m).
Proof.
  intros Hm Hs. unfold Serverless.rateLimit. rewrite Hm. simpl.
  unfold Serverless.RATE_LIMIT_WINDOW_MS.
  by rewrite (bool_decide_eq_false_2 (now - s > 60 * 1000)) by lia.
Qed.

Lemma rateLimit_new_window now ip (m : gmap string Serverless.entry) :
  match m !! ip with
  | None => True
  | Some e => now - Serverless.start e > 60000
  end →
  Serverless.rateLimit now ip m = (false, <[ip := Serverless.mkEntry 1 now]> m).
Proof.
  intros Hm. unfold Serverless.rateLimit, Serverless.RATE_LIMIT_WINDOW_MS.
  destruct (m !! ip) as [e|]; simpl.
  - by rewrite (bool_decide_eq_true_2 (now - Serverless.start e > 60 * 1000)) by lia.
  - by rewrite (bool_decide_eq_false_2 (now - now > 60 * 1000)) by lia.
Qed.

(** The window of the serverless limiter: it opens at instant [s] and
    the calls up to 60000 ms later are counted in it. *)
Lemma serverless_window ip s : ∀ times k (m : gmap string Serverless.entry),
  m !! ip = Some (Serverless.mkEntry k s) →
  Forall (λ t, t - s ≤ 60000) times →
  ∀ (i : nat) t, times !! i = Some t →
    Serverless.trace ip times m !! i =
      Some (bool_decide (k + Z.of_nat i + 1 > 60), k + Z.of_nat i + 1).
Proof.
  induction times as [|t0 times IH]; intros k m Hm Hall i t Hi.
  { by rewrite lookup_nil in Hi. }
  apply Forall_cons in Hall as [Ht0 Hall].
  cbn [Serverless.trace]. rewrite (rateLimit_same_window _ _ _ k s) by done.
  destruct i as [|i]; simpl.
  - rewrite lookup_insert_eq. simpl.
    by replace (k + Z.of_nat 0 + 1) with (k + 1) by lia.
  - erewrite IH; [|by rewrite lookup_insert_eq|done|done].
    by replace (k + 1 + Z.of_nat i + 1) with (k + Z.of_nat (S i) + 1) by lia.
Qed.

(** C4, as stated, fails for the serverless limiter, whose window starts
    at the first request instead of at the epoch minute: a call at
    0:30 and a call at 1:00 have different minute keys, yet the second
    one is counted as the 2nd of the window, not as a fresh 1st. In the
    Express limiter the first call of a new minute does get the fresh
    count 1, but it is not always admitted: with a daily ceiling of 1 it
    is rejected with [daily_limit]. *)
Lemma C4_counterexample :
  minuteKey 30000 = 0 ∧ minuteKey 60000 = 1
  ∧ Serverless.trace "a" [30000; 60000] ∅ = [(false, 1); (false, 2)]
  ∧ trace (mkConfig 60 1) [("a", 30000); ("a", 60000)] sharedStore
    = [(Admit, 1); (Reject daily_limit, 1)]
  ∧ trace (mkConfig 60 1) [("a", 30000); ("a", 60000)] inProcess
    = [(Admit, 1); (Reject daily_limit, 1)].
Proof. by vm_compute. Qed.

(** C4 (amended). In the two branches of the Express limiter, started
    empty and called in chronological order, the counter read after a
    call equals the number of calls that client has made so far in the
    same epoch minute ([minuteKey]); the call is rejected with
    [minute_limit] exactly when that number exceeds the ceiling (so the
    (ceiling+1)-th call of a minute is); and a call in a minute in which
    the client has not called before has the fresh count 1 (so it is not
    rejected with [minute_limit] when the ceiling is at least 1).
    In the serverless limiter a window opens at the first call of a
    client, or at its first call more than 60000 ms after the previous
    window opened, and is not aligned to the epoch minute: the N-th call
    made within 60000 ms of the opening has count N and is rejected
    exactly when N exceeds 60; in particular the opening call has count
    1 and is admitted. *)
Theorem C4_minute_windows cfg (calls : list (string * Z)) :
  (Sorted Z.le (calls.*2) →
   ∀ st, st = sharedStore ∨ st = inProcess →
   ∀ i c t, calls !! i = Some (c, t) →
     let n := callsInMinute (take (S i) calls) c (minuteKey t) in
     ∃ r, trace cfg calls st !! i = Some (r, n)
       ∧ (r = Reject minute_limit ↔ n > MAX_REQUESTS_PER_MIN cfg)
       ∧ ((∀ j t', (j < i)%nat → calls !! j = Some (c, t') →
                   minuteKey t' ≠ minuteKey t) → n = 1))
  ∧ (∀ (m : gmap string Serverless.entry) ip t1 rest,
       match m !! ip with
       | None => True
       | Some e => t1 - Serverless.start e > Serverless.RATE_LIMIT_WINDOW_MS
       end →
       Forall (λ t, t - t1 ≤ Serverless.RATE_LIMIT_WINDOW_MS) rest →
       ∀ (i : nat) t, (t1 :: rest) !! i = Some t →
         Serverless.trace ip (t1 :: rest) m !! i =
           Some (bool_decide (Z.of_nat i + 1 > Serverless.MAX_REQUESTS_PER_WINDOW),
                 Z.of_nat i + 1)).
Proof.
  split.
  - intros Hsort st Hst i c t Hi n.
    assert (∃ tl, Forall (Z.le tl) (calls.*2)) as [tl Htl].
    { destruct calls as [|[c0 t0] calls']; [by exists 0|].
      exists t0. rewrite fmap_cons. simpl in *. constructor; [done|].
      by apply (Sorted_extends Z.le_trans). }
    destruct (trace_counts cfg 0 calls [] tl ∅ ∅ ∅ (agree_empty _ _ _)) with (i := i) (c := c) (t := t)
      as (r1 & r2 & H1 & H2 & H3 & H4); [|done..|].
    { intros c' k. unfold rcount, callsInMinute. by rewrite lookup_empty. }
    simpl app in *. rewrite <-minuteKey_nowMin in *. fold n in H1, H2, H3, H4.
    assert ((∀ j t', (j < i)%nat → calls !! j = Some (c, t') →
              minuteKey t' ≠ minuteKey t) → n = 1) as Hfresh.
    { intros Hprev. subst n. rewrite (take_S_r _ _ _ Hi), callsInMinute_snoc.
      rewrite callsInMinute_none.
      - rewrite decide_True; [done|]. split; [done|apply minuteKey_nowMin].
      - intros j t' Hj. apply lookup_take_Some in Hj as [Hj Hlt]. by apply (Hprev j). }
    destruct Hst as [-> | ->]; [exists r1|exists r2]; done.
  - intros m ip t1 rest Hm Hall i t Hi.
    unfold Serverless.RATE_LIMIT_WINDOW_MS, Serverless.MAX_REQUESTS_PER_WINDOW in *.
    cbn [Serverless.trace].
    rewrite rateLimit_new_window by (destruct (m !! ip); [lia|done]).
    destruct i as [|i]; simpl.
    + by rewrite lookup_insert_eq.
    + simpl in Hi.
      erewrite (serverless_window ip t1 rest 1); [|by rewrite lookup_insert_eq|done|done].
      by replace (1 + Z.of_nat i + 1) with (Z.of_nat (S i) + 1) by lia.
Qed.

Lemma C4_minute_windows_witness :
  let calls := [("a", 0); ("a", 1000); ("b", 2000); ("a", 60000)] in
  Sorted Z.le (calls.*2)
  ∧ ∃ r, trace (mkConfig 1 2) calls sharedStore !! 1%nat = Some (r, 2)
         ∧ (r = Reject minute_limit ↔ 2 > 1).
Proof.
  cbv zeta.
  assert (Sorted Z.le ([("a", 0); ("a", 1000); ("b", 2000); ("a", 60000)].*2)) as Hs.
  { repeat constructor; simpl; lia. }
  split; [done|].
  destruct (proj1 (C4_minute_windows (mkConfig 1 2) _) Hs sharedStore (or_introl eq_refl)
              1%nat "a" 1000 eq_refl) as (r & Hr & Hmin & _).
  exists r. split; [exact Hr|exact Hmin].
Defined.

End MinuteWindows.

(** ** Response Normalizer *)

Section NormalizerFacts.
Import Json Normalizer.

Variable JSON_parse : json → option json.

Lemma truthy_Some v : truthy v = true → ∃ x, v = Some x ∧ x ≠ JNull.
Proof. destruct v as [[]|]; naive_solver. Qed.

Lemma member_opt v name :
  (∃ x, v = Some x ∧ x ≠ JNull) → member v name = Returned (optMember v name).
Proof. intros (x & -> & Hx). by destruct x. Qed.

Lemma index0_opt v :
  (∃ x, v = Some x ∧ x ≠ JNull) → index0 v = Returned (optIndex0 v).
Proof. intros (x & -> & Hx). by destruct x. Qed.

Lemma optMember_Some v name x :
  optMember v name = Some x → ∃ y, v = Some y ∧ y ≠ JNull.
Proof. destruct v as [[]|]; naive_solver. Qed.

Lemma optIndex0_Some v x :
  optIndex0 v = Some x → ∃ y, v = Some y ∧ y ≠ JNull.
Proof. destruct v as [[]|]; naive_solver. Qed.

(** A falsy first candidate has no text below it. *)
Lemma falsy_no_text v :
  truthy v = false →
  optMember (optIndex0 (optMember (optMember v "content") "parts")) "text" = None.
Proof. destruct v as [[]|]; naive_solver. Qed.

(** The normalizer by cases on the value found at the path. *)
Lemma normalize_spec (json : json) :
  json ≠ JNull →
  normalize JSON_parse json =
    if truthy (textAtPath json) then
      match match textAtPath json with Some t => JSON_parse t | None => None end with
      | Some recommendations => Returned (JObject [("recommendations", recommendations)])
      | None =>
          Returned (JObject (match getProp json "candidates" with
                             | Some c => [("candidates", c)]
                             | None => []
                             end))
      end
    else Returned json.
Proof.
  intros Hnull. unfold normalize, textAtPath.
  assert (member (Some json) "candidates" = Returned (getProp json "candidates")) as ->
    by (by destruct json).
  cbn [bind].
  set (candidate := optIndex0 (getProp json "candidates")).
  destruct (truthy candidate) eqn:Hc.
  - rewrite !(member_opt candidate) by by apply truthy_Some. cbn [bind].
    destruct (truthy (optMember (optIndex0 (optMember (optMember candidate "content")
                                                         "parts")) "text")) eqn:Ht; [|done].
    apply truthy_Some in Ht as (x & Hx & _).
    pose proof (optMember_Some _ _ _ Hx) as Hpart.
    destruct Hpart as (part & Hpart & Hpn).
    pose proof (optIndex0_Some _ _ Hpart) as (parts & Hparts & Hpsn).
    pose proof (optMember_Some _ _ _ Hparts) as Hcontent.
    rewrite (member_opt (optMember candidate "content")) by done. cbn [bind].
    rewrite index0_opt by eauto. cbn [bind].
    rewrite member_opt by eauto. cbn [bind]. done.
  - cbn [bind]. rewrite Hc. by rewrite falsy_no_text.
Qed.

(** C5 (amended): for every upstream JSON object whose first candidate
    carries a truthy value at [candidates[0].content.parts[0].text] (any
    non-empty string, in particular), if [JSON.parse] of that value
    yields [v], the normalizer returns [{ recommendations: v }], whatever
    the shape of [v]. A text string that parses is such a value for any
    [JSON.parse] that rejects the empty text, as the built-in does. *)
Theorem C5_truthy_parsed_text_is_wrapped props :
  (∀ t v, textAtPath (JObject props) = Some t → truthy (Some t) = true →
          JSON_parse t = Some v →
          normalize JSON_parse (JObject props)
          = Returned (JObject [("recommendations", v)]))
  ∧ (∀ t v, JSON_parse (JString EmptyString) = None →
            textAtPath (JObject props) = Some (JString t) →
            JSON_parse (JString t) = Some v →
            normalize JSON_parse (JObject props)
            = Returned (JObject [("recommendations", v)])).
Proof.
  split.
  - intros t v Htext Ht Hparse. rewrite normalize_spec by done.
    by rewrite Htext, Ht, Hparse.
  - intros t v Hempty Htext Hparse. rewrite normalize_spec by done.
    rewrite Htext, Hparse. simpl. destruct t; [congruence|done].
Qed.

(** C6 (amended): on every JSON value other than [null] the normalizer
    returns and does not raise; when the value at the path is truthy
    (any non-empty string, in particular) and fails to parse, it returns
    [{ candidates: upstreamJson.candidates }] with the candidates
    untouched; when the text is the empty string, it returns the
    upstream value itself, unchanged. *)
Theorem C6_unparsable_text_falls_back (json : json) :
  (json ≠ JNull → ∃ out, normalize JSON_parse json = Returned out)
  ∧ (∀ t, textAtPath json = Some t → truthy (Some t) = true →
          JSON_parse t = None →
          ∃ c, getProp json "candidates" = Some c
               ∧ normalize JSON_parse json = Returned (JObject [("candidates", c)]))
  ∧ (textAtPath json = Some (JString EmptyString) →
     normalize JSON_parse json = Returned json).
Proof.
  split_and!.
  - intros Hnull. rewrite normalize_spec by done.
    repeat case_match; eauto.
  - intros t Htext Ht Hparse.
    assert (json ≠ JNull) as Hnull by (by intros ->).
    rewrite normalize_spec by done. rewrite Htext, Ht, Hparse.
    destruct (getProp json "candidates") as [c|] eqn:Hc; [by eauto|].
    unfold textAtPath in Htext. by rewrite Hc in Htext.
  - intros Htext.
    assert (json ≠ JNull) as Hnull by (by intros ->).
    rewrite normalize_spec by done. by rewrite Htext.
Qed.

(** C7 (amended): for every upstream JSON object in which the path
    [candidates?.[0].content?.parts?.[0]?.text], followed as JavaScript
    property access, leads to no value or to a falsy one, the normalizer
    returns the object unchanged; this is the case in particular when
    the object has no [candidates] property. *)
Theorem C7_pass_through props :
  (truthy (textAtPath (JObject props)) = false →
   normalize JSON_parse (JObject props) = Returned (JObject props))
  ∧ (lookupProp "candidates" props = None →
     normalize JSON_parse (JObject props) = Returned (JObject props)).
Proof.
  split.
  - intros Hf. rewrite normalize_spec by done. by rewrite Hf.
  - intros Hnone. rewrite normalize_spec by done.
    unfold textAtPath. simpl. by rewrite Hnone.
Qed.

End NormalizerFacts.

Section NormalizerExamples.
Import Json Normalizer Examples.

(** C5, as stated, fails: a [text] field holding [0] or [false] is
    accepted by [JSON.parse], which reads it as the text [0] or [false],
    but the guard of the normalizer tests the field for truthiness, and
    the upstream object is returned as it is, not wrapped. *)
Lemma C5_counterexample :
  let zero := JNumber (mkNumber 0 0) in
  (textAtPath (JObject (envelope zero)) = Some zero
   ∧ JSON_parse zero = Some zero
   ∧ normalize JSON_parse (JObject (envelope zero)) = Returned (JObject (envelope zero))
   ∧ normalize JSON_parse (JObject (envelope zero))
     ≠ Returned (JObject [("recommendations", zero)]))
  ∧ (textAtPath (JObject (envelope (JBool false))) = Some (JBool false)
     ∧ JSON_parse (JBool false) = Some (JBool false)
     ∧ normalize JSON_parse (JObject (envelope (JBool false)))
       = Returned (JObject (envelope (JBool false)))
     ∧ normalize JSON_parse (JObject (envelope (JBool false)))
       ≠ Returned (JObject [("recommendations", JBool false)])).
Proof. cbv zeta. split_and!; by vm_compute. Qed.

Lemma C5_truthy_parsed_text_is_wrapped_witness :
  normalize JSON_parse (JObject (envelope (JString nameX)))
  = Returned (JObject [("recommendations", JArray [JObject [("name", JString "X")]])]).
Proof.
  apply (proj1 (C5_truthy_parsed_text_is_wrapped JSON_parse (envelope (JString nameX)))
           (JString nameX)).
  - reflexivity.
  - reflexivity.
  - by vm_compute.
Defined.

(** C6, as stated, fails: when the text is the empty string, which does
    not parse, the normalizer returns the whole upstream object (here
    with its [modelVersion]) instead of [{ candidates: ... }]; and on the
    JSON value [null] the property access [json.candidates] raises. *)
Lemma C6_counterexample :
  let upstream :=
    JObject (envelope (JString EmptyString) ++ [("modelVersion", JString "m")]) in
  textAtPath upstream = Some (JString EmptyString)
  ∧ JSON_parse (JString EmptyString) = None
  ∧ normalize JSON_parse upstream = Returned upstream
  ∧ upstream ≠ JObject (envelope (JString EmptyString))
  ∧ JSON_parse (JString "null") = Some JNull
  ∧ normalize JSON_parse JNull = Thrown.
Proof. cbv zeta. split_and!; by vm_compute. Qed.

Lemma C6_unparsable_text_falls_back_witness :
  textAtPath (JObject (envelope (JString "not json"))) = Some (JString "not json")
  ∧ truthy (Some (JString "not json")) = true
  ∧ JSON_parse (JString "not json") = None
  ∧ ∃ c, getProp (JObject (envelope (JString "not json"))) "candidates" = Some c
         ∧ normalize JSON_parse (JObject (envelope (JString "not json")))
           = Returned (JObject [("candidates", c)]).
Proof.
  split_and!; [reflexivity|reflexivity|by vm_compute|].
  apply (proj1 (proj2 (C6_unparsable_text_falls_back JSON_parse
                         (JObject (envelope (JString "not json"))))) (JString "not json")).
  - reflexivity.
  - reflexivity.
  - by vm_compute.
Defined.

(** C7, as stated, fails: an upstream object whose [candidates] is not
    an array but an object with a property [0] is not passed through;
    the text below it is found, parsed and wrapped. *)
Lemma C7_counterexample :
  let upstream :=
    JObject [("candidates",
              JObject [("0", JObject [("content",
                 JObject [("parts", JArray [JObject [("text", JString "[1]")]])])])])] in
  (∀ items, getProp upstream "candidates" ≠ Some (JArray items))
  ∧ normalize JSON_parse upstream
    = Returned (JObject [("recommendations", JArray [JNumber (mkNumber 1 0)])])
  ∧ normalize JSON_parse upstream ≠ Returned upstream.
Proof. cbv zeta. split_and!; [by intros items|by vm_compute|by vm_compute]. Qed.

Lemma C7_pass_through_witness :
  lookupProp "candidates" [("foo", JString "bar")] = None
  ∧ normalize JSON_parse (JObject [("foo", JString "bar")])
    = Returned (JObject [("foo", JString "bar")]).
Proof.
  split; [reflexivity|].
  apply (proj2 (C7_pass_through JSON_parse [("foo", JString "bar")])). reflexivity.
Defined.

End NormalizerExamples.

(** ** The handlers *)

Section HandlerFacts.
Import Json.

Variable JSON_parse : json → option json.
Variable fetch : string → option json → Http.fetched.

(** C8: a request to the serverless proxy endpoint whose method is not
    POST is answered 405 Method Not Allowed with the header
    [Allow: POST]; no upstream call is made and the table of rate-limit
    counters is left as it was. *)
Theorem C8_non_post_is_rejected env now req (ipCounters : gmap string Serverless.entry) :
  Serverless.method req ≠ "POST" →
  Serverless.handler JSON_parse fetch env now req ipCounters =
    (Http.mkResponse 405 (Some "POST") (Http.TextBody "Method Not Allowed"),
     ipCounters, []).
Proof.
  intros Hm. unfold Serverless.handler.
  destruct (String.eqb_spec (Serverless.method req) "POST"); done.
Qed.

(** C9 (amended): when [checkRateLimit] rejects a request, the Express
    server answers 429 with the body
    [{ error: 'Rate limit exceeded', reason }], where [reason] is
    [minute_limit] or [daily_limit], and makes no upstream call; when the
    serverless limiter rejects a request, the function answers 429 with
    the body [{ error: 'Rate limit exceeded. Try again later.' }], which
    names no limit, and makes no upstream call. *)
Theorem C9_rejection_response :
  (∀ env now req st reason st',
     Http.set (Express.GEMINI_API_KEY env) = true →
     QuotaGuard.checkRateLimit (Express.limits env) now
       (Http.clientIp (Express.x_forwarded_for req) (Express.remoteAddress req)) st
       = (QuotaGuard.Reject reason, st') →
     Express.proxy JSON_parse fetch env now req st =
       (Http.mkResponse 429 None
          (Http.JsonBody (JObject [("error", JString "Rate limit exceeded");
                                   ("reason", JString (Express.reasonName reason))])),
        st', [])
     ∧ (Express.reasonName reason = "minute_limit"
        ∨ Express.reasonName reason = "daily_limit"))
  ∧ (∀ env now req (ipCounters ipCounters' : gmap string Serverless.entry),
       Serverless.method req = "POST" →
       Http.set (Serverless.GEMINI_API_KEY env) = true →
       Serverless.rateLimit now
         (Http.clientIp (Serverless.x_forwarded_for req) (Serverless.remoteAddress req))
         ipCounters = (true, ipCounters') →
       Serverless.handler JSON_parse fetch env now req ipCounters =
         (Http.mkResponse 429 None
            (Http.JsonBody (JObject [("error", JString "Rate limit exceeded. Try again later.")])),
          ipCounters', [])).
Proof.
  split.
  - intros env now req st reason st' Hkey Hrate. unfold Express.proxy.
    rewrite Hkey, Hrate. simpl. split; [done|]. destruct reason; auto.
  - intros env now req m m' Hpost Hkey Hrate. unfold Serverless.handler.
    rewrite Hpost, Hkey, Hrate. done.
Qed.

(** C10: in the Express server, when [GEMINI_API_KEY] is not set and
    demo mode is off, a request that reaches the route is answered with
    the configuration error (500) before the client address is read and
    the limiter is called: the limiter state is unchanged and no
    upstream call is made, also when the auth middleware answers first.
    The serverless function has the same order: a POST without the key
    is answered with its configuration error (403) and the table of
    counters is unchanged. *)
Theorem C10_key_check_precedes_limiter :
  (∀ env now req st,
     Http.set (Express.GEMINI_API_KEY env) = false →
     Express.DEMO_PROXY env ≠ Some "1" →
     Express.proxy JSON_parse fetch env now req st =
       (Http.mkResponse 500 None (Http.errorBody "GEMINI_API_KEY not configured on server"),
        st, [])
     ∧ (Express.postProxy JSON_parse fetch env now req st).1.2 = st
     ∧ (Express.postProxy JSON_parse fetch env now req st).2 = [])
  ∧ (∀ env now req (ipCounters : gmap string Serverless.entry),
       Serverless.method req = "POST" →
       Http.set (Serverless.GEMINI_API_KEY env) = false →
       Serverless.handler JSON_parse fetch env now req ipCounters =
         (Http.mkResponse 403 None
            (Http.errorBody
               "GEMINI_API_KEY not configured on server. Please set the environment variable."),
          ipCounters, [])).
Proof.
  split.
  - intros env now req st Hkey Hdemo.
    assert (Express.proxy JSON_parse fetch env now req st =
              (Http.mkResponse 500 None
                 (Http.errorBody "GEMINI_API_KEY not configured on server"), st, [])) as Hp.
    { unfold Express.proxy. rewrite Hkey. simpl.
      by rewrite bool_decide_eq_false_2 by done. }
    split_and!; [done|..]; unfold Express.postProxy; rewrite Hp;
      by destruct (Express.auth env req).
  - intros env now req m Hpost Hkey. unfold Serverless.handler.
    by rewrite Hpost, Hkey.
Qed.

End HandlerFacts.

Section HandlerExamples.
Import Json Examples.

Lemma C8_non_post_is_rejected_witness :
  let req := Serverless.mkRequest "GET" (Some "203.0.113.7") None None None in
  Serverless.method req ≠ "POST"
  ∧ Serverless.handler JSON_parse unreachable (Serverless.mkEnvironment (Some "k") None) 0 req ∅
    = (Http.mkResponse 405 (Some "POST") (Http.TextBody "Method Not Allowed"), ∅, []).
Proof.
  cbv zeta. split; [discriminate|].
  apply (C8_non_post_is_rejected JSON_parse unreachable). discriminate.
Defined.

(** C9, as stated, fails for the serverless function: the 61st request
    of a client within a minute is rejected by its limiter and answered
    429 with a body whose only property is [error]; it has no [reason]
    and names no limit. *)
Lemma C9_counterexample :
  let req := Serverless.mkRequest "POST" (Some "203.0.113.7") None None None in
  let env := Serverless.mkEnvironment (Some "k") None in
  (Serverless.rateLimit 0 "203.0.113.7" (after 60 "203.0.113.7")).1 = true
  ∧ (Serverless.handler JSON_parse unreachable env 0 req (after 60 "203.0.113.7")).1.1
    = Http.mkResponse 429 None
        (Http.JsonBody (JObject [("error", JString "Rate limit exceeded. Try again later.")]))
  ∧ lookupProp "reason" [("error", JString "Rate limit exceeded. Try again later.")] = None.
Proof. cbv zeta. split_and!; by vm_compute. Qed.

Lemma C9_rejection_response_witness :
  let env := Express.mkEnvironment (Some "k") None None (Some "1") None
               (QuotaGuard.mkConfig 1 2) in
  let req := Express.mkRequest None (Some "203.0.113.7") None None in
  let st := (QuotaGuard.checkRateLimit (QuotaGuard.mkConfig 1 2) 0 "203.0.113.7"
               QuotaGuard.inProcess).2 in
  (Express.proxy JSON_parse unreachable env 1000 req st).1.1
  = Http.mkResponse 429 None
      (Http.JsonBody (JObject [("error", JString "Rate limit exceeded");
                               ("reason", JString "minute_limit")])).
Proof.
  cbv zeta.
  set (env := Express.mkEnvironment (Some "k") None None (Some "1") None
                (QuotaGuard.mkConfig 1 2)).
  set (req := Express.mkRequest None (Some "203.0.113.7") None None).
  set (st := (QuotaGuard.checkRateLimit (QuotaGuard.mkConfig 1 2) 0 "203.0.113.7"
                QuotaGuard.inProcess).2).
  assert (QuotaGuard.checkRateLimit (Express.limits env) 1000
            (Http.clientIp (Express.x_forwarded_for req) (Express.remoteAddress req)) st
          = (QuotaGuard.Reject QuotaGuard.minute_limit,
             (QuotaGuard.checkRateLimit (Express.limits env) 1000 "203.0.113.7" st).2)) as H
    by (by vm_compute).
  destruct (proj1 (C9_rejection_response JSON_parse unreachable) env 1000 req st _ _
              eq_refl H) as [-> _].
  reflexivity.
Defined.

Lemma C10_key_check_precedes_limiter_witness :
  let env := Express.mkEnvironment None None None (Some "1") None QuotaGuard.defaultConfig in
  let req := Express.mkRequest None (Some "203.0.113.7") None None in
  Http.set (Express.GEMINI_API_KEY env) = false
  ∧ Express.DEMO_PROXY env ≠ Some "1"
  ∧ Express.proxy JSON_parse unreachable env 0 req QuotaGuard.inProcess =
      (Http.mkResponse 500 None (Http.errorBody "GEMINI_API_KEY not configured on server"),
       QuotaGuard.inProcess, []).
Proof.
  cbv zeta. split_and!; [reflexivity|discriminate|].
  apply (proj1 (C10_key_check_precedes_limiter JSON_parse unreachable)
           (Express.mkEnvironment None None None (Some "1") None QuotaGuard.defaultConfig)).
  - reflexivity.
  - discriminate.
Defined.

End HandlerExamples.


(** * Further properties of the code *)

(** ** One client at a time *)

Section Isolation.
Import Clock QuotaGuard Accounting.

Lemma incr_expire_cell now k seconds (s : gmap rkey rval) :
  incr_expire now k seconds s =
    ((cell now seconds (s !! k)).1, <[k := (cell now seconds (s !! k)).2]> s).
Proof.
  unfold incr_expire, redis_incr, redis_expire, cell.
  destruct (s !! k) as [v|] eqn:Hk.
  - destruct (live now v) eqn:Hl; simpl.
    + case_bool_decide as H1; [|done]. rewrite lookup_insert_eq.
      assert (live now (mkRval (rvalue v + 1) (rexpiry v)) = true) as ->
        by (by destruct v).
      simpl. by rewrite insert_insert_eq, H1.
    + rewrite lookup_insert_eq. simpl. by rewrite insert_insert_eq.
  - simpl. rewrite lookup_insert_eq. simpl. by rewrite insert_insert_eq.
Qed.

(** The Redis branch reads and writes the two counters of the caller and
    nothing else. *)
Lemma checkRateLimit_redis_cells cfg now c (s : gmap rkey rval) :
  let mk := RlKey c (minuteKey now) in
  let dk := DailyKey c (utcDate now) in
  let cm := cell now 65 (s !! mk) in
  let cd := cell now (86400 + 60) (s !! dk) in
  checkRateLimit_redis cfg now c s =
    if bool_decide (cm.1 > MAX_REQUESTS_PER_MIN cfg)
    then (Reject minute_limit, <[mk := cm.2]> s)
    else (if bool_decide (cd.1 > MAX_DAILY_REQUESTS cfg) then Reject daily_limit else Admit,
          <[dk := cd.2]> (<[mk := cm.2]> s)).
Proof.
  intros mk dk cm cd. rewrite checkRateLimit_redis_unfold.
  fold mk dk. rewrite incr_expire_cell. fold cm. cbn [fst snd].
  case_bool_decide; [done|].
  rewrite incr_expire_cell. rewrite lookup_insert_ne by done. fold cd.
  cbn [fst snd]. by case_bool_decide.
Qed.

Lemma sameFor_refl c st : sameFor c st st.
Proof. unfold sameFor. by destruct (redis st). Qed.

(** The same call on two states that hold the same for the caller. *)
Lemma checkRateLimit_sameFor cfg t c st1 st2 :
  sameFor c st1 st2 →
  (checkRateLimit cfg t c st1).1 = (checkRateLimit cfg t c st2).1
  ∧ sameFor c (checkRateLimit cfg t c st1).2 (checkRateLimit cfg t c st2).2.
Proof.
  unfold sameFor, checkRateLimit.
  destruct (redis st1) as [s1|], (redis st2) as [s2|]; try done.
  - intros Hs. rewrite !checkRateLimit_redis_cells. cbv zeta.
    destruct (Hs (minuteKey t)) as [-> _]. destruct (Hs (utcDate t)) as [_ ->].
    repeat case_bool_decide; simpl; (split; [done|]); intros x;
      rewrite !(lookup_insert (M:=gmap rkey)); repeat case_decide;
      (split; first [done | apply Hs]).
  - intros Hm. rewrite !checkRateLimit_mem_spec. cbv zeta. rewrite Hm. simpl.
    split; [done|]. by rewrite !lookup_insert_eq.
Qed.

(** The call of another client leaves what the state holds for [c]. *)
Lemma checkRateLimit_frame cfg t c0 c st :
  c0 ≠ c → sameFor c (checkRateLimit cfg t c0 st).2 st.
Proof.
  intros Hne. unfold sameFor, checkRateLimit.
  destruct (redis st) as [s|].
  - rewrite checkRateLimit_redis_cells. cbv zeta.
    case_bool_decide; simpl; intros x;
      rewrite !(lookup_insert_ne (M:=gmap rkey)) by congruence; done.
  - rewrite checkRateLimit_mem_spec. cbv zeta. simpl. by rewrite lookup_insert_ne.
Qed.

Lemma sameFor_trans c st1 st2 st3 :
  sameFor c st1 st2 → sameFor c st2 st3 → sameFor c st1 st3.
Proof.
  unfold sameFor.
  destruct (redis st1), (redis st2), (redis st3); try done.
  - intros H1 H2 x. destruct (H1 x) as [-> ->]. apply H2.
  - congruence.
Qed.

Lemma run_cons cfg c t calls st :
  run cfg ((c, t) :: calls) st =
    (checkRateLimit cfg t c st).1 :: run cfg calls (checkRateLimit cfg t c st).2.
Proof. simpl. by destruct (checkRateLimit cfg t c st). Qed.

Lemma run_isolated cfg c calls : ∀ st1 st2,
  sameFor c st1 st2 →
  decisionsOf c calls (run cfg calls st1)
  = run cfg (filter (λ ct, ct.1 = c) calls) st2.
Proof.
  unfold decisionsOf.
  induction calls as [|[c0 t0] calls IH]; intros st1 st2 Hsame; [done|].
  rewrite run_cons. cbn [zip zip_with]. rewrite !filter_cons. simpl.
  destruct (decide (c0 = c)) as [->|Hne].
  - rewrite run_cons. rewrite fmap_cons. simpl.
    destruct (checkRateLimit_sameFor cfg t0 c st1 st2 Hsame) as [-> Hsame'].
    f_equal. by apply IH.
  - apply IH. eapply sameFor_trans; [|exact Hsame]. by apply checkRateLimit_frame.
Qed.

(** X1: in both branches of [checkRateLimit] and from any limiter state,
    the decisions a client receives are those it would receive if the
    calls of all other clients had not been made. *)
Theorem X1_clients_are_isolated cfg c (calls : list (string * Z)) st :
  decisionsOf c calls (run cfg calls st)
  = run cfg (filter (λ ct, ct.1 = c) calls) st.
Proof. apply run_isolated, sameFor_refl. Qed.

End Isolation.

(** ** The ceilings are enforced *)

Section Ceilings.
Import Clock QuotaGuard Accounting.

Local Ltac goal_decide H :=
  match goal with |- context [decide ?P] => destruct (decide P) as [H|H] end.

Lemma admitted_cons (P : string * Z → Prop) `{!∀ x, Decision (P x)} ct r calls decisions :
  admitted P (ct :: calls) (r :: decisions) =
    (if decide (P ct ∧ r = Admit) then 1 else 0) + admitted P calls decisions.
Proof.
  unfold admitted. cbn [zip zip_with]. rewrite filter_cons. simpl.
  destruct (decide (P ct ∧ r = Admit)); simpl; lia.
Qed.

Lemma admitted_nonneg (P : string * Z → Prop) `{!∀ x, Decision (P x)} calls decisions :
  0 ≤ admitted P calls decisions.
Proof. unfold admitted. lia. Qed.

Lemma verdict_Admit cfg n d :
  verdict cfg n d = Admit ↔ n ≤ MAX_REQUESTS_PER_MIN cfg ∧ d ≤ MAX_DAILY_REQUESTS cfg.
Proof. unfold verdict. repeat case_bool_decide; split; (done || lia || intros [??]; lia). Qed.




(** In the in-process branch the daily counter of a client bounds all its
    admissions to come. *)
Lemma local_lifetime_budget cfg c calls : ∀ (m : gmap string entry),
  admitted (λ ct, ct.1 = c) calls (run cfg calls (mkLimiter None m))
  ≤ Z.max 0 (MAX_DAILY_REQUESTS cfg - dayCountOf m c).
Proof.
  induction calls as [|[c0 t0] calls IH]; intros m.
  { unfold admitted. simpl. lia. }
  rewrite run_local_cons, checkRateLimit_mem_spec. cbv zeta. cbn [fst snd].
  rewrite admitted_cons. simpl fst.
  match goal with |- context [run cfg calls (mkLimiter None ?m')] =>
    specialize (IH m'); set (m1 := m') in * end.
  destruct (decide (c0 = c)) as [->|Hne].
  - assert (dayCountOf m1 c = dayCountOf m c + 1) as Hd.
    { unfold dayCountOf, m1. rewrite lookup_insert_eq. simpl. by destruct (m !! c). }
    rewrite Hd in IH. goal_decide Had; [|lia]. destruct Had as [_ Had].
    apply verdict_Admit in Had as [_ Had].
    assert (dayCount (default (mkEntry (nowMin t0) 0 (utcDate t0) 0) (m !! c))
            = dayCountOf m c) as Hdc by (unfold dayCountOf; by destruct (m !! c)).
    lia.
  - rewrite decide_False by (intros [? ?]; by apply Hne).
    assert (dayCountOf m1 c = dayCountOf m c) as Hd
      by (unfold dayCountOf, m1; by rewrite lookup_insert_ne).
    rewrite Hd in IH. lia.
Qed.

Lemma local_minute_budget cfg c k calls : ∀ tl (m : gmap string entry),
  (∀ e, m !! c = Some e → minute e ≤ nowMin tl) →
  Sorted Z.le (calls.*2) → Forall (Z.le tl) (calls.*2) →
  admitted (λ ct, ct.1 = c ∧ minuteKey ct.2 = k) calls
    (run cfg calls (mkLimiter None m))
  ≤ Z.max 0 (minuteBudget cfg c k tl m).
Proof.
  induction calls as [|[c0 t0] calls IH]; intros tl m Hinv Hsort Hge.
  { unfold admitted. simpl. lia. }
  rewrite fmap_cons in Hsort, Hge. simpl in Hsort, Hge.
  apply Forall_cons in Hge as [Hge0 _].
  pose proof (Sorted_extends Z.le_trans Hsort) as Hext.
  apply Sorted_inv in Hsort as [Hsort _].
  pose proof (nowMin_mono _ _ Hge0) as Hmono.
  rewrite run_local_cons, checkRateLimit_mem_spec. cbv zeta. cbn [fst snd].
  rewrite admitted_cons. simpl fst. simpl snd. rewrite minuteKey_nowMin.
  match goal with |- context [run cfg calls (mkLimiter None ?m')] =>
    specialize (IH t0 m'); set (m1 := m') in * end.
  destruct (decide (c0 = c)) as [->|Hne].
  - assert (m1 !! c = Some (mkEntry (nowMin t0)
              ((if bool_decide (minute (default (mkEntry (nowMin t0) 0 (utcDate t0) 0) (m !! c))
                                ≠ nowMin t0) then 0
                else count (default (mkEntry (nowMin t0) 0 (utcDate t0) 0) (m !! c))) + 1)
              (day (default (mkEntry (nowMin t0) 0 (utcDate t0) 0) (m !! c)))
              (dayCount (default (mkEntry (nowMin t0) 0 (utcDate t0) 0) (m !! c)) + 1)))
      as Hm1 by (unfold m1; by rewrite lookup_insert_eq).
    specialize (IH ltac:(intros e; rewrite Hm1; intros [= <-]; simpl; lia) Hsort Hext).
    unfold minuteBudget in *. rewrite Hm1 in IH. clear Hm1. clearbody m1.
    pose proof Hinv as Hinv'.
    destruct (m !! c) as [e|] eqn:Hmc; [specialize (Hinv' e eq_refl)|];
      cbn [default minute count day dayCount] in *; unfold id in *;
      (goal_decide Had; [destruct Had as [[_ Hk] Had]; apply verdict_Admit in Had|]);
      repeat case_bool_decide; lia.
  - rewrite decide_False by (intros [[? _] _]; by apply Hne).
    assert (m1 !! c = m !! c) as Hm1 by (unfold m1; by rewrite lookup_insert_ne).
    specialize (IH ltac:(intros e; rewrite Hm1; intros He; specialize (Hinv e He); lia)
                  Hsort Hext).
    unfold minuteBudget in *. rewrite Hm1 in IH. clear Hm1. clearbody m1.
    destruct (m !! c) as [e|] eqn:Hmc; [specialize (Hinv e eq_refl)|];
      repeat case_bool_decide; lia.
Qed.

(** X3: in the in-process branch, started with an empty table, a client
    is admitted at most [MAX_DAILY_REQUESTS] times over the whole life of
    the process, whatever the dates of its calls; and, when the calls come
    in chronological order, at most [MAX_REQUESTS_PER_MIN] times within one
    epoch minute. *)
Theorem X3_in_process_enforces_ceilings cfg c (calls : list (string * Z)) :
  admitted (λ ct, ct.1 = c) calls (run cfg calls inProcess)
  ≤ Z.max 0 (MAX_DAILY_REQUESTS cfg)
  ∧ (Sorted Z.le (calls.*2) →
     ∀ k, admitted (λ ct, ct.1 = c ∧ minuteKey ct.2 = k) calls (run cfg calls inProcess)
          ≤ Z.max 0 (MAX_REQUESTS_PER_MIN cfg)).
Proof.
  split.
  - pose proof (local_lifetime_budget cfg c calls ∅) as H.
    unfold dayCountOf in H. rewrite lookup_empty in H. simpl in H.
    by rewrite Z.sub_0_r in H.
  - intros Hsort k.
    assert (∃ tl, Forall (Z.le tl) (calls.*2)) as [tl Htl].
    { destruct calls as [|[c0 t0] calls']; [by exists 0|].
      exists t0. rewrite fmap_cons. simpl in *. constructor; [done|].
      by apply (Sorted_extends Z.le_trans). }
    pose proof (local_minute_budget cfg c k calls tl ∅) as H.
    etrans; [apply H; [by intros e; rewrite lookup_empty|done..]|].
    unfold minuteBudget. rewrite lookup_empty. case_bool_decide; lia.
Qed.

Lemma X3_in_process_enforces_ceilings_witness :
  let calls := [("a", 0); ("a", 1000); ("b", 2000); ("a", 60000)] in
  Sorted Z.le (calls.*2)
  ∧ admitted (λ ct, ct.1 = "a" ∧ minuteKey ct.2 = 0) calls (run (mkConfig 1 5) calls inProcess)
    ≤ Z.max 0 1.
Proof.
  cbv zeta.
  assert (Sorted Z.le ([("a", 0); ("a", 1000); ("b", 2000); ("a", 60000)].*2)) as Hs.
  { repeat constructor; simpl; lia. }
  split; [done|].
  exact (proj2 (X3_in_process_enforces_ceilings (mkConfig 1 5) "a" _) Hs 0).
Defined.

End Ceilings.

(** ** What the two stores keep *)

Section Stores.
Import Clock QuotaGuard Accounting.

#[local] Set Warnings "-clear-no-such-hyp".

Lemma finalState_local_cons cfg c t calls (m : gmap string entry) :
  finalState cfg ((c, t) :: calls) (mkLimiter None m) =
    finalState cfg calls (mkLimiter None (checkRateLimit_mem cfg t c m).2).
Proof.
  simpl. unfold checkRateLimit. simpl. by destruct (checkRateLimit_mem cfg t c m).
Qed.

Lemma finalState_shared_cons cfg c t calls (s : gmap rkey rval) x :
  finalState cfg ((c, t) :: calls) (mkLimiter (Some s) x) =
    finalState cfg calls (mkLimiter (Some (checkRateLimit_redis cfg t c s).2) x).
Proof.
  simpl. unfold checkRateLimit. simpl. by destruct (checkRateLimit_redis cfg t c s).
Qed.

(** X4: the in-process table never forgets. After any sequence of calls
    it holds an entry for every client it held before and for every client
    that called, and the [dayCount] of a client has grown by the number of
    calls that client made, whatever their dates and whether they were
    admitted or rejected: entries are not removed and the daily counter is
    not reset. *)
Theorem X4_in_process_table_only_grows cfg (calls : list (string * Z))
    (m : gmap string entry) :
  let m' := ipMap (finalState cfg calls (mkLimiter None m)) in
  dom m' = dom m ∪ list_to_set (calls.*1)
  ∧ ∀ c, dayCountOf m' c
         = dayCountOf m c + Z.of_nat (length (filter (λ ct, ct.1 = c) calls)).
Proof.
  revert m. induction calls as [|[c0 t0] calls IH]; intros m.
  { simpl. split; [set_solver|]. intros c. lia. }
  cbv zeta. rewrite finalState_local_cons, checkRateLimit_mem_spec. cbv zeta.
  cbn [snd].
  match goal with |- context [finalState cfg calls (mkLimiter None ?m1)] =>
    destruct (IH m1) as [Hdom Hcount]; set (m' := m1) in * end.
  split.
  - rewrite Hdom. unfold m'. rewrite dom_insert_L. rewrite fmap_cons. simpl. set_solver.
  - intros c. rewrite Hcount. rewrite filter_cons. simpl.
    destruct (decide (c0 = c)) as [->|Hne].
    + unfold dayCountOf, m'. rewrite lookup_insert_eq. simpl.
      destruct (m !! c); simpl; lia.
    + unfold dayCountOf, m'. by rewrite lookup_insert_ne.
Qed.

Lemma cell_bounded_ttl now seconds k (o : option rval) :
  match o with
  | Some v => 1 ≤ rvalue v ∧ ∃ x, rexpiry v = Some x ∧ window_end k ≤ x < window_end k + ttl k
  | None => True
  end →
  ttl k = seconds * 1000 →
  window_end k ≤ now + seconds * 1000 → now < window_end k →
  let v' := (cell now seconds o).2 in
  1 ≤ rvalue v' ∧ ∃ x, rexpiry v' = Some x ∧ window_end k ≤ x < window_end k + ttl k.
Proof.
  intros Ho Httl Hlo Hhi. unfold cell.
  destruct o as [v|].
  - destruct Ho as (Hv & x & Hx & Hb). destruct (live now v); simpl.
    + split; [lia|]. case_bool_decide; [eexists; split; [done|lia]|eauto].
    + split; [lia|]. eexists; split; [done|lia].
  - simpl. split; [lia|]. eexists; split; [done|lia].
Qed.

Lemma checkRateLimit_redis_bounded_ttl cfg now c (s : gmap rkey rval) :
  bounded_ttl s → bounded_ttl (checkRateLimit_redis cfg now c s).2.
Proof.
  intros Hs. rewrite checkRateLimit_redis_cells. cbv zeta.
  pose proof (nowMin_bounds now) as Hm. pose proof (utcDate_bounds now) as Hd.
  assert (∀ k v, s !! k = Some v →
            1 ≤ rvalue v ∧ ∃ x, rexpiry v = Some x ∧ window_end k ≤ x < window_end k + ttl k)
    as Hs' by exact Hs.
  pose proof (cell_bounded_ttl now 65 (RlKey c (minuteKey now)) (s !! RlKey c (minuteKey now)))
    as Hcm.
  pose proof (cell_bounded_ttl now (86400 + 60) (DailyKey c (utcDate now))
                (s !! DailyKey c (utcDate now))) as Hcd.
  rewrite minuteKey_nowMin in *. cbv zeta in Hcm, Hcd. simpl window_end in *. simpl ttl in *.
  assert (∀ k, match s !! k with
               | Some v => 1 ≤ rvalue v
                           ∧ ∃ x, rexpiry v = Some x ∧ window_end k ≤ x < window_end k + ttl k
               | None => True end) as Hall.
  { intros k. destruct (s !! k) eqn:Hk; [by apply Hs|done]. }
  specialize (Hcm (Hall _) ltac:(lia) ltac:(lia) ltac:(lia)).
  specialize (Hcd (Hall _) ltac:(lia) ltac:(lia) ltac:(lia)).
  case_bool_decide; simpl; intros k v;
    rewrite !(lookup_insert (M:=gmap rkey)); repeat case_decide;
    intros Hk; simplify_eq; try done; by apply Hs.
Qed.

(** X5: in the shared store, started empty, every counter that a sequence
    of calls has created carries an expiry, and that expiry lies between
    the end of the minute (or UTC date) the counter counts and 65 s (or
    24 h and 60 s) after it: a counter is never dropped while its window is
    open and never stays without a time to live. *)
Theorem X5_shared_store_counters_expire cfg (calls : list (string * Z)) s :
  redis (finalState cfg calls sharedStore) = Some s →
  ∀ k v, s !! k = Some v →
    ∃ x, rexpiry v = Some x ∧ window_end k ≤ x < window_end k + ttl k.
Proof.
  assert (∀ s0 x, bounded_ttl s0 →
            ∃ s1, redis (finalState cfg calls (mkLimiter (Some s0) x)) = Some s1
                  ∧ bounded_ttl s1) as Hgen.
  { induction calls as [|[c0 t0] calls IH]; intros s0 x Hs0; [by exists s0|].
    rewrite finalState_shared_cons. apply IH. by apply checkRateLimit_redis_bounded_ttl. }
  intros Hs k v Hk.
  destruct (Hgen ∅ ∅) as (s1 & Hs1 & Hb); [by intros ? ?; rewrite lookup_empty|].
  unfold sharedStore in Hs. rewrite Hs1 in Hs. injection Hs as ->.
  by apply Hb.
Qed.

Lemma X5_shared_store_counters_expire_witness :
  ∃ s x, redis (finalState defaultConfig [("a", 30000)] sharedStore) = Some s
         ∧ s !! RlKey "a" 0 = Some (mkRval 1 (Some x))
         ∧ window_end (RlKey "a" 0) ≤ x < window_end (RlKey "a" 0) + ttl (RlKey "a" 0).
Proof.
  eexists _, 95000. split; [reflexivity|]. split; [by vm_compute|].
  destruct (X5_shared_store_counters_expire defaultConfig [("a", 30000)] _ eq_refl
              (RlKey "a" 0) (mkRval 1 (Some 95000))) as (x & Hx & Hb); [by vm_compute|].
  by injection Hx as <-.
Defined.

Lemma filter_other_clients (c : string) (calls : list (string * Z)) :
  (∀ t, (c, t) ∉ calls) → filter (λ ct, ct.1 = c) calls = [].
Proof.
  induction calls as [|[c0 t0] calls IH]; intros Hc; [done|].
  rewrite filter_cons. simpl. rewrite decide_False.
  - apply IH. intros t Ht. apply (Hc t). by right.
  - intros ->. apply (Hc t0). by left.
Qed.

(** X6: a client that has not called before is admitted whenever both
    ceilings are at least 1. Hence a sequence of calls that all carry
    different client identifiers is admitted in full by both branches,
    whatever its length and its instants. *)
Theorem X6_new_clients_are_admitted cfg (calls : list (string * Z)) st :
  st = sharedStore ∨ st = inProcess →
  1 ≤ MAX_REQUESTS_PER_MIN cfg → 1 ≤ MAX_DAILY_REQUESTS cfg →
  NoDup (calls.*1) →
  Forall (λ r, r = Admit) (run cfg calls st).
Proof.
  intros Hst Hmin Hday Hnd. apply Forall_forall. intros r Hr.
  apply list_elem_of_lookup in Hr as [i Hr].
  assert (length (run cfg calls st) = length calls) as Hlen by apply run_length.
  destruct (calls !! i) as [[c t]|] eqn:Hc.
  2:{ apply lookup_ge_None in Hc. apply lookup_lt_Some in Hr. lia. }
  assert (r ∈ decisionsOf c calls (run cfg calls st)) as Hin.
  { unfold decisionsOf. apply list_elem_of_fmap. exists ((c, t), r). split; [done|].
    apply list_elem_of_filter. split; [done|].
    apply list_elem_of_lookup. exists i. by apply lookup_zip_with_Some; eauto. }
  rewrite (run_isolated cfg c calls st st (sameFor_refl _ _)) in Hin.
  assert (filter (λ ct : string * Z, ct.1 = c) calls = [(c, t)]) as Hf.
  { clear -Hnd Hc. revert i Hc. induction calls as [|[c0 t0] calls IH]; intros i Hc; [done|].
    rewrite fmap_cons in Hnd. apply NoDup_cons in Hnd as [Hnotin Hnd].
    rewrite filter_cons. simpl in *. destruct i as [|i].
    - injection Hc as -> ->. rewrite decide_True by done. f_equal.
      apply filter_other_clients. intros t' Hin'.
      apply Hnotin. apply list_elem_of_fmap. by exists (c, t').
    - simpl in Hc. rewrite decide_False; [by eapply IH|].
      intros ->. apply Hnotin. apply list_elem_of_fmap. exists (c, t). split; [done|].
      by eapply list_elem_of_lookup_2. }
  assert (run cfg [(c, t)] st = [Admit]) as Hone.
  { destruct Hst as [-> | ->].
    - unfold sharedStore. rewrite run_shared_cons, checkRateLimit_redis_cells. cbv zeta.
      rewrite !lookup_empty. unfold cell. simpl.
      rewrite !bool_decide_eq_false_2 by lia. done.
    - unfold inProcess. rewrite run_local_cons, checkRateLimit_mem_spec. cbv zeta.
      rewrite lookup_empty. simpl.
      rewrite (bool_decide_eq_false_2 (nowMin t ≠ nowMin t)) by naive_solver.
      unfold verdict. simpl. rewrite !bool_decide_eq_false_2 by lia. done. }
  rewrite Hf, Hone in Hin. by apply list_elem_of_singleton in Hin.
Qed.

Lemma X6_new_clients_are_admitted_witness :
  let calls := [("a", 0); ("b", 0); ("c", 0)] in
  NoDup (calls.*1) ∧ Forall (λ r, r = Admit) (run (mkConfig 1 1) calls inProcess).
Proof.
  cbv zeta.
  assert (NoDup ([("a", 0); ("b", 0); ("c", 0)].*1)) as Hnd.
  { simpl. repeat (apply NoDup_cons; split; [set_solver|]). apply NoDup_nil_2. }
  split; [done|].
  apply (X6_new_clients_are_admitted (mkConfig 1 1) _ inProcess); [by right|simpl; lia..|done].
Defined.

End Stores.

(** ** The normalizer as a function *)

Section NormalizerShape.
Import Json Normalizer.

Variable JSON_parse : json → option json.

Lemma three_shapes (json : json) :
  json ≠ JNull →
  (∃ t v, textAtPath json = Some t ∧ truthy (Some t) = true ∧ JSON_parse t = Some v
          ∧ normalize JSON_parse json = Returned (JObject [("recommendations", v)]))
  ∨ (∃ t c, textAtPath json = Some t ∧ truthy (Some t) = true ∧ JSON_parse t = None
            ∧ getProp json "candidates" = Some c
            ∧ normalize JSON_parse json = Returned (JObject [("candidates", c)]))
  ∨ (truthy (textAtPath json) = false ∧ normalize JSON_parse json = Returned json).
Proof.
  intros Hnull. rewrite normalize_spec by done.
  destruct (truthy (textAtPath json)) eqn:Ht; [|by right; right].
  destruct (textAtPath json) as [t|] eqn:Htext; [|done].
  destruct (JSON_parse t) as [v|] eqn:Hp.
  - left. by exists t, v.
  - right. left. destruct (getProp json "candidates") as [c|] eqn:Hc.
    + by exists t, c.
    + unfold textAtPath in Htext. by rewrite Hc in Htext.
Qed.


(** X7: on every JSON value other than [null] the normalizer returns one
    of three shapes and no other: [{ recommendations: v }] where [v] is
    what the truthy value at the text path parses to; [{ candidates: c }]
    where [c] is the upstream [candidates] value itself, when that truthy
    value does not parse; or the upstream value unchanged, when the path
    leads to nothing or to a falsy value. *)
Theorem X7_three_shapes (json : json) :
  json ≠ JNull →
  (∃ t v, textAtPath json = Some t ∧ truthy (Some t) = true ∧ JSON_parse t = Some v
          ∧ normalize JSON_parse json = Returned (JObject [("recommendations", v)]))
  ∨ (∃ t c, textAtPath json = Some t ∧ truthy (Some t) = true ∧ JSON_parse t = None
            ∧ getProp json "candidates" = Some c
            ∧ normalize JSON_parse json = Returned (JObject [("candidates", c)]))
  ∨ (truthy (textAtPath json) = false ∧ normalize JSON_parse json = Returned json).
Proof. apply three_shapes. Qed.

(** X8: the normalizer is idempotent: what it returns is a value that it
    returns unchanged. A client that receives [{ recommendations }] or the
    [{ candidates }] fallback and normalizes it again gets the same
    object. *)
Theorem X8_normalize_idempotent (json out : json) :
  normalize JSON_parse json = Returned out →
  normalize JSON_parse out = Returned out.
Proof.
  intros Hn.
  assert (json ≠ JNull) as Hnull by (by intros ->).
  destruct (three_shapes json Hnull)
    as [(t & v & _ & _ & _ & H)|[(t & c & Ht & Htr & Hp & Hc & H)|[_ H]]];
    rewrite H in Hn; injection Hn as <-.
  - done.
  - rewrite normalize_spec by done.
    assert (textAtPath (JObject [("candidates", c)]) = textAtPath json) as ->.
    { unfold textAtPath. rewrite Hc. reflexivity. }
    by rewrite Ht, Htr, Hp.
  - done.
Qed.

End NormalizerShape.

Section NormalizerShapeExamples.
Import Json Normalizer Examples.

Lemma X7_three_shapes_witness :
  JObject (envelope (JString "not json")) ≠ JNull
  ∧ ((∃ t v, textAtPath (JObject (envelope (JString "not json"))) = Some t
             ∧ truthy (Some t) = true ∧ JSON_parse t = Some v
             ∧ normalize JSON_parse (JObject (envelope (JString "not json")))
               = Returned (JObject [("recommendations", v)]))
     ∨ (∃ t c, textAtPath (JObject (envelope (JString "not json"))) = Some t
               ∧ truthy (Some t) = true ∧ JSON_parse t = None
               ∧ getProp (JObject (envelope (JString "not json"))) "candidates" = Some c
               ∧ normalize JSON_parse (JObject (envelope (JString "not json")))
                 = Returned (JObject [("candidates", c)]))
     ∨ (truthy (textAtPath (JObject (envelope (JString "not json")))) = false
        ∧ normalize JSON_parse (JObject (envelope (JString "not json")))
          = Returned (JObject (envelope (JString "not json"))))).
Proof.
  split; [discriminate|].
  apply (X7_three_shapes JSON_parse (JObject (envelope (JString "not json")))).
  discriminate.
Defined.

Lemma X8_normalize_idempotent_witness :
  normalize JSON_parse (JObject (envelope (JString nameX)))
  = Returned (JObject [("recommendations", JArray [JObject [("name", JString "X")]])])
  ∧ normalize JSON_parse (JObject [("recommendations", JArray [JObject [("name", JString "X")]])])
    = Returned (JObject [("recommendations", JArray [JObject [("name", JString "X")]])]).
Proof.
  assert (normalize JSON_parse (JObject (envelope (JString nameX)))
          = Returned (JObject [("recommendations", JArray [JObject [("name", JString "X")]])]))
    as H by (by vm_compute).
  split; [exact H|].
  exact (X8_normalize_idempotent JSON_parse _ _ H).
Defined.

End NormalizerShapeExamples.

(** ** The client identifier *)

Section ClientIp.
Import Http.

Lemma beforeComma_app (a b : string) :
  (","%char ∉ list_ascii_of_string a) →
  beforeComma (a ++ "," ++ b) = a.
Proof.
  induction a as [|c a IH]; intros Hc; [done|].
  simpl in *. destruct (Ascii.eqb_spec c ","%char) as [->|Hne].
  - exfalso. apply Hc. by left.
  - f_equal. apply IH. intros Hin. apply Hc. by right.
Qed.

Lemma beforeComma_no_comma (s : string) :
  ","%char ∉ list_ascii_of_string (beforeComma s).
Proof.
  induction s as [|c s IH]; simpl; [by intros ?%elem_of_nil|].
  destruct (Ascii.eqb_spec c ","%char) as [->|Hne]; simpl; [by intros ?%elem_of_nil|].
  intros [?|?]%elem_of_cons; [congruence|done].
Qed.

Lemma trimStart_chars (s : string) x :
  x ∈ list_ascii_of_string (trimStart s) → x ∈ list_ascii_of_string s.
Proof.
  induction s as [|c s IH]; simpl; [done|].
  destruct (is_space c); [intros H; right; by apply IH|done].
Qed.

Lemma trimEnd_chars (s : string) x :
  x ∈ list_ascii_of_string (trimEnd s) → x ∈ list_ascii_of_string s.
Proof.
  induction s as [|c s IH]; simpl; [done|].
  destruct (trimEnd s) as [|c' r'] eqn:Hr.
  - destruct (is_space c); simpl; [by intros ?%elem_of_nil|].
    intros [->|?%elem_of_nil]%elem_of_cons; [by left|done].
  - simpl. intros [->|Hin]%elem_of_cons; [by left|]. right. by apply IH.
Qed.

Lemma trimEnd_idempotent (s : string) : trimEnd (trimEnd s) = trimEnd s.
Proof.
  induction s as [|c s IH]; simpl; [done|].
  destruct (trimEnd s) as [|c' r'] eqn:Hr.
  - destruct (is_space c) eqn:Hc; simpl; [done|]. by rewrite Hc.
  - simpl in *. by rewrite IH.
Qed.

Lemma trimEnd_head c (s : string) :
  is_space c = false → trimEnd (String c s) = String c (trimEnd s).
Proof. intros Hc. simpl. destruct (trimEnd s); [by rewrite Hc|done]. Qed.

Lemma trimStart_head (s : string) :
  match trimStart s with
  | String c _ => is_space c = false
  | EmptyString => True
  end.
Proof.
  induction s as [|c s IH]; simpl; [done|].
  destruct (is_space c) eqn:Hc; [done|]. simpl. done.
Qed.

Lemma trim_idempotent (s : string) : trim (trim s) = trim s.
Proof.
  unfold trim. pose proof (trimStart_head s) as Hh.
  destruct (trimStart s) as [|c r]; [done|].
  rewrite trimEnd_head by done. simpl trimStart. rewrite Hh.
  rewrite <-trimEnd_head by done. apply trimEnd_idempotent.
Qed.

Lemma beforeComma_id (s : string) :
  (","%char ∉ list_ascii_of_string s) → beforeComma s = s.
Proof.
  induction s as [|c s IH]; intros Hc; [done|].
  simpl in *. destruct (Ascii.eqb_spec c ","%char) as [->|Hne].
  - exfalso. apply Hc. by left.
  - f_equal. apply IH. intros Hin. apply Hc. by right.
Qed.

(** X9: the client identifier is the first entry of the forwarded-for
    header, trimmed, whenever the header holds a list: the entries after
    the first comma and the socket address play no part. Without a header
    and without a socket address the identifier is [unknown]. *)
Theorem X9_first_forwarded_entry (a b : string) (remoteAddress : option string) :
  ((","%char ∉ list_ascii_of_string a) →
   clientIp (Some (a ++ "," ++ b)) remoteAddress = trim a)
  ∧ (∀ header, set header = false → set remoteAddress = false →
       clientIp header remoteAddress = "unknown").
Proof.
  split.
  - intros Ha. unfold clientIp.
    assert (set (Some (a ++ "," ++ b)) = true) as -> by (by destruct a).
    simpl default. by rewrite beforeComma_app.
  - intros header Hh Hr. unfold clientIp. by rewrite Hh, Hr.
Qed.

(** A first entry between a no-break space and a space. *)
Lemma X9_first_forwarded_entry_witness :
  (","%char ∉ list_ascii_of_string (String "160"%char "203.0.113.7 "))
  ∧ clientIp (Some (String "160"%char "203.0.113.7 " ++ "," ++ " 10.0.0.1")) (Some "::1")
    = "203.0.113.7".
Proof.
  assert (","%char ∉ list_ascii_of_string (String "160"%char "203.0.113.7 ")) as H.
  { simpl. intros Hin. repeat (apply elem_of_cons in Hin as [Hin|Hin]; [discriminate|]).
    by apply elem_of_nil in Hin. }
  split; [exact H|].
  exact (proj1 (X9_first_forwarded_entry (String "160"%char "203.0.113.7 ") " 10.0.0.1"
                  (Some "::1")) H).
Defined.

(** X10: a client identifier contains no comma and has no white space at
    either end, and it is a fixed point: a request that carries a
    non-empty identifier as its forwarded-for header is given that same
    identifier, from whatever address it comes. *)
Theorem X10_identifier_is_normal (header remoteAddress : option string) :
  let id := clientIp header remoteAddress in
  (","%char ∉ list_ascii_of_string id)
  ∧ trim id = id
  ∧ (id ≠ EmptyString → ∀ other, clientIp (Some id) other = id).
Proof.
  cbv zeta. unfold clientIp.
  set (source := if set header then default "unknown" header
                 else if set remoteAddress then default "unknown" remoteAddress
                 else "unknown").
  assert (","%char ∉ list_ascii_of_string (trim (beforeComma source))) as Hnc.
  { intros Hin. apply trimEnd_chars, trimStart_chars in Hin.
    by apply beforeComma_no_comma in Hin. }
  split_and!; [done|apply trim_idempotent|].
  intros Hne other.
  assert (set (Some (trim (beforeComma source))) = true) as ->.
  { simpl. by destruct (trim (beforeComma source)). }
  simpl default. rewrite beforeComma_id by done. apply trim_idempotent.
Qed.

Lemma X10_identifier_is_normal_witness :
  clientIp (Some " 203.0.113.7 , 10.0.0.1") None ≠ EmptyString
  ∧ clientIp (Some (clientIp (Some " 203.0.113.7 , 10.0.0.1") None)) (Some "::1")
    = clientIp (Some " 203.0.113.7 , 10.0.0.1") None.
Proof.
  assert (clientIp (Some " 203.0.113.7 , 10.0.0.1") None ≠ EmptyString) as H
    by (by vm_compute).
  split; [exact H|].
  exact (proj2 (proj2 (X10_identifier_is_normal (Some " 203.0.113.7 , 10.0.0.1") None))
           H (Some "::1")).
Defined.

End ClientIp.

(** ** The request pipeline *)

Section Pipeline.
Import Json.

Variable JSON_parse : json → option json.
Variable fetch : string → option json → Http.fetched.

(** X11: the auth middleware is a gate in front of the route. Unless
    [NO_AUTH] is [1], a request whose [X-API-TOKEN] differs from
    [API_TOKEN], or any request when [API_TOKEN] is not set, is answered
    401 (respectively 403) with the limiter state untouched and no
    upstream call; with [NO_AUTH=1], or with the configured token, the
    answer is the route's. *)
Theorem X11_auth_gate env now req st :
  (Express.NO_AUTH env ≠ Some "1" →
   Http.set (Express.API_TOKEN env) = false
   ∨ Express.x_api_token req ≠ Express.API_TOKEN env →
   ∃ response,
     Express.postProxy JSON_parse fetch env now req st = (response, st, [])
     ∧ Http.status response
       = (if Http.set (Express.API_TOKEN env) then 401 else 403))
  ∧ (Express.NO_AUTH env = Some "1"
     ∨ (Http.set (Express.API_TOKEN env) = true
        ∧ Express.x_api_token req = Express.API_TOKEN env) →
     Express.postProxy JSON_parse fetch env now req st
     = Express.proxy JSON_parse fetch env now req st).
Proof.
  unfold Express.postProxy, Express.auth. split.
  - intros Hno Hbad. rewrite bool_decide_eq_false_2 by done.
    destruct (Http.set (Express.API_TOKEN env)) eqn:Hset; simpl; [|by eexists].
    destruct Hbad as [?|Hbad]; [done|].
    rewrite (bool_decide_eq_false_2 _ Hbad). rewrite orb_true_r. by eexists.
  - intros [Hno|[Hset Htok]].
    + by rewrite bool_decide_eq_true_2.
    + case_bool_decide; [done|]. rewrite Hset, Htok, Hset. simpl.
      by rewrite bool_decide_eq_true_2.
Qed.

(** X12: each handler calls the upstream at most once per request, and
    only for a request that its limiter has admitted (in the serverless
    function: a POST with the key configured; in the Express route: with
    the key configured); the call goes to the [generateContent] endpoint
    of the configured model with the key as query parameter. *)
Theorem X12_upstream_called_once_when_admitted :
  (∀ env now req (ipCounters : gmap string Serverless.entry),
     let calls := (Serverless.handler JSON_parse fetch env now req ipCounters).2 in
     calls = []
     ∨ (∃ url payload key,
          calls = [(url, payload)]
          ∧ Serverless.method req = "POST"
          ∧ Serverless.GEMINI_API_KEY env = Some key ∧ key ≠ EmptyString
          ∧ (Serverless.rateLimit now
               (Http.clientIp (Serverless.x_forwarded_for req) (Serverless.remoteAddress req))
               ipCounters).1 = false
          ∧ ∃ model, url = Http.endpoint model key))
  ∧ (∀ env now req st,
       let calls := (Express.proxy JSON_parse fetch env now req st).2 in
       calls = []
       ∨ (∃ url payload key,
            calls = [(url, payload)]
            ∧ Express.GEMINI_API_KEY env = Some key ∧ key ≠ EmptyString
            ∧ (QuotaGuard.checkRateLimit (Express.limits env) now
                 (Http.clientIp (Express.x_forwarded_for req) (Express.remoteAddress req))
                 st).1 = QuotaGuard.Admit
            ∧ ∃ model, url = Http.endpoint model key)).
Proof.
  split.
  - intros env now req m. cbv zeta. unfold Serverless.handler.
    destruct (negb (String.eqb (Serverless.method req) "POST")) eqn:Hpost; [by left|].
    destruct (negb (Http.set (Serverless.GEMINI_API_KEY env))) eqn:Hkey; [by left|].
    destruct (Serverless.rateLimit now
                (Http.clientIp (Serverless.x_forwarded_for req) (Serverless.remoteAddress req)) m)
      as [rejected m'] eqn:Hrl.
    destruct rejected; [by left|]. right.
    apply negb_false_iff, String.eqb_eq in Hpost. apply negb_false_iff in Hkey.
    destruct (Serverless.GEMINI_API_KEY env) as [key|]; [|done].
    exists (Http.endpoint
              (if Http.set (Serverless.GEMINI_MODEL env)
               then default Http.defaultModel (Serverless.GEMINI_MODEL env)
               else Http.defaultModel) key),
      (Serverless.requestBody JSON_parse req), key.
    split_and!; [done..|by intros ->|done|by eexists].
  - intros env now req st. cbv zeta. unfold Express.proxy.
    destruct (negb (Http.set (Express.GEMINI_API_KEY env))) eqn:Hkey.
    { case_bool_decide; by left. }
    destruct (QuotaGuard.checkRateLimit (Express.limits env) now
                (Http.clientIp (Express.x_forwarded_for req) (Express.remoteAddress req)) st)
      as [rate st'] eqn:Hrl.
    destruct rate; [|by left]. right.
    apply negb_false_iff in Hkey.
    destruct (Express.GEMINI_API_KEY env) as [key|]; [|done].
    exists (Http.endpoint
              (if Http.set (Express.GEMINI_MODEL env)
               then default Http.defaultModel (Express.GEMINI_MODEL env)
               else Http.defaultModel) key),
      (if truthy (Express.body req) then Express.body req else Some (JObject [])), key.
    split_and!; [done|done|by intros ->|done|by eexists].
Qed.

(** X13: a request that reaches the limiter is charged whatever happens
    next: the limiter state after the Express route (with the key
    configured) is the state after [checkRateLimit], and the table after
    the serverless handler (a POST with the key configured) is the table
    after its limiter, for every upstream outcome (network failure, error
    status, body that does not parse). Nothing is refunded. *)
Theorem X13_quota_is_not_refunded :
  (∀ env now req st,
     Http.set (Express.GEMINI_API_KEY env) = true →
     (Express.proxy JSON_parse fetch env now req st).1.2
     = (QuotaGuard.checkRateLimit (Express.limits env) now
          (Http.clientIp (Express.x_forwarded_for req) (Express.remoteAddress req)) st).2)
  ∧ (∀ env now req (ipCounters : gmap string Serverless.entry),
       Serverless.method req = "POST" →
       Http.set (Serverless.GEMINI_API_KEY env) = true →
       (Serverless.handler JSON_parse fetch env now req ipCounters).1.2
       = (Serverless.rateLimit now
            (Http.clientIp (Serverless.x_forwarded_for req) (Serverless.remoteAddress req))
            ipCounters).2).
Proof.
  split.
  - intros env now req st Hkey. unfold Express.proxy. rewrite Hkey. cbn [negb].
    destruct (QuotaGuard.checkRateLimit (Express.limits env) now
                (Http.clientIp (Express.x_forwarded_for req) (Express.remoteAddress req)) st)
      as [[|r] st']; done.
  - intros env now req m Hpost Hkey. unfold Serverless.handler.
    rewrite Hpost, Hkey. cbn [negb String.eqb Ascii.eqb Bool.eqb].
    destruct (Serverless.rateLimit now
                (Http.clientIp (Serverless.x_forwarded_for req) (Serverless.remoteAddress req)) m)
      as [[|] m']; done.
Qed.

(** X14: what the caller gets for an upstream reply. When the upstream
    replies with a 2xx status and a body that parses as a JSON value
    other than [null], the normalizer returns on that value and the
    shared forwarding step answers 200 with the normalizer's result as
    JSON body; it answers 200 in no other case; an upstream reply with
    any other status is passed through with that status and its body
    text verbatim; a failed upstream call, or a 2xx reply whose body
    does not parse or parses as [null], is answered 500 with the
    handler's internal-error message. *)
Theorem X14_forwarding (internalError url : string) (payload : option json) :
  let response := Http.forward JSON_parse fetch internalError url payload in
  (∀ st text json,
     fetch url payload = Http.Reply st text → Http.ok st = true →
     JSON_parse (JString text) = Some json → json ≠ JNull →
     ∃ out, Normalizer.normalize JSON_parse json = Returned out
            ∧ response = Http.mkResponse 200 None (Http.JsonBody out))
  ∧ (Http.status response = 200 →
       ∃ st text json,
         fetch url payload = Http.Reply st text ∧ Http.ok st = true
         ∧ JSON_parse (JString text) = Some json ∧ json ≠ JNull)
  ∧ (∀ st text, fetch url payload = Http.Reply st text → Http.ok st = false →
       response = Http.mkResponse st None (Http.TextBody text))
  ∧ (fetch url payload = Http.NetworkError
     ∨ (∃ st text, fetch url payload = Http.Reply st text ∧ Http.ok st = true
                   ∧ (JSON_parse (JString text) = None
                      ∨ JSON_parse (JString text) = Some JNull)) →
     response = Http.mkResponse 500 None (Http.errorBody internalError)).
Proof.
  cbv zeta. unfold Http.forward. split_and!.
  - intros st text json -> -> -> Hnull. simpl.
    assert (∃ out, Normalizer.normalize JSON_parse json = Returned out) as [out Hout].
    { rewrite normalize_spec by done. repeat case_match; eauto. }
    exists out. by rewrite Hout.
  - destruct (fetch url payload) as [|st text] eqn:Hf; simpl; [done|].
    destruct (Http.ok st) eqn:Hok; simpl.
    + destruct (JSON_parse (JString text)) as [json|] eqn:Hp; simpl; [|done].
      destruct (Normalizer.normalize JSON_parse json) as [out|] eqn:Hn; simpl; [|done].
      intros _. exists st, text, json. split_and!; try done. by intros ->.
    + intros ->. done.
  - intros st text -> ->. done.
  - intros [->|(st & text & -> & -> & [->| ->])]; done.
Qed.

End Pipeline.

Section PipelineExamples.
Import Json.

Lemma X11_auth_gate_witness :
  let env := Express.mkEnvironment (Some "k") None (Some "secret") None None
               QuotaGuard.defaultConfig in
  let req := Express.mkRequest (Some "guess") (Some "203.0.113.7") None None in
  Express.NO_AUTH env ≠ Some "1"
  ∧ Express.x_api_token req ≠ Express.API_TOKEN env
  ∧ ∃ response,
      Express.postProxy JSON_parse Examples.unreachable env 0 req QuotaGuard.inProcess
      = (response, QuotaGuard.inProcess, [])
      ∧ Http.status response = 401.
Proof.
  cbv zeta. split_and!; [discriminate..|].
  apply (proj1 (X11_auth_gate JSON_parse Examples.unreachable
                  (Express.mkEnvironment (Some "k") None (Some "secret") None None
                     QuotaGuard.defaultConfig) 0
                  (Express.mkRequest (Some "guess") (Some "203.0.113.7") None None)
                  QuotaGuard.inProcess)).
  - discriminate.
  - right. discriminate.
Defined.

Lemma X13_quota_is_not_refunded_witness :
  let env := Express.mkEnvironment (Some "k") None None (Some "1") None
               QuotaGuard.defaultConfig in
  let req := Express.mkRequest None (Some "203.0.113.7") None None in
  Http.set (Express.GEMINI_API_KEY env) = true
  ∧ QuotaGuard.minuteCount 0 "203.0.113.7"
      (Express.proxy JSON_parse Examples.unreachable env 0 req QuotaGuard.inProcess).1.2 = 1.
Proof.
  cbv zeta. split; [reflexivity|].
  rewrite (proj1 (X13_quota_is_not_refunded JSON_parse Examples.unreachable)) by reflexivity.
  by vm_compute.
Defined.

(** An upstream that answers with one candidate whose text is [[1]]. *)
Lemma X14_forwarding_witness :
  ∃ out,
    Normalizer.normalize JSON_parse (JObject (Examples.envelope (JString "[1]")))
    = Returned out
    ∧ Http.forward JSON_parse (λ _ _, Http.Reply 200 Examples.candidateReply)
        "Proxy internal error" "u" None
      = Http.mkResponse 200 None (Http.JsonBody out).
Proof.
  apply (proj1 (X14_forwarding JSON_parse (λ _ _, Http.Reply 200 Examples.candidateReply)
                  "Proxy internal error" "u" None)
           200 Examples.candidateReply (JObject (Examples.envelope (JString "[1]")))).
  - reflexivity.
  - reflexivity.
  - by vm_compute.
  - discriminate.
Defined.

End PipelineExamples.

(** ** The payload on its way to the upstream *)

Section Payload.
Import Json.

Variable JSON_parse : json → option json.
Variable fetch : string → option json → Http.fetched.


(** X16: the payload reaches the upstream as it was received. In the
    Express route a truthy body is forwarded as it is and a missing or
    falsy one as the empty object; in the serverless function a body that
    is an object with at least one property is forwarded as it is, whatever
    [rawBody] holds. *)
Theorem X16_payload_is_forwarded_verbatim :
  (∀ env now req st key,
     Express.GEMINI_API_KEY env = Some key → key ≠ EmptyString →
     (QuotaGuard.checkRateLimit (Express.limits env) now
        (Http.clientIp (Express.x_forwarded_for req) (Express.remoteAddress req)) st).1
       = QuotaGuard.Admit →
     (Express.proxy JSON_parse fetch env now req st).2.*2
     = [if truthy (Express.body req) then Express.body req else Some (JObject [])])
  ∧ (∀ env now req (ipCounters : gmap string Serverless.entry) key prop props,
       Serverless.method req = "POST" →
       Serverless.GEMINI_API_KEY env = Some key → key ≠ EmptyString →
       Serverless.body req = Some (JObject (prop :: props)) →
       (Serverless.rateLimit now
          (Http.clientIp (Serverless.x_forwarded_for req) (Serverless.remoteAddress req))
          ipCounters).1 = false →
       (Serverless.handler JSON_parse fetch env now req ipCounters).2.*2
       = [Some (JObject (prop :: props))]).
Proof.
  split.
  - intros env now req st key Hkey Hne Hadmit. unfold Express.proxy. rewrite Hkey.
    assert (Http.set (Some key) = true) as -> by (by destruct key). cbn [negb].
    destruct (QuotaGuard.checkRateLimit (Express.limits env) now
                (Http.clientIp (Express.x_forwarded_for req) (Express.remoteAddress req)) st)
      as [rate st'].
    simpl in Hadmit. by subst rate.
  - intros env now req m key prop props Hpost Hkey Hne Hbody Hadmit.
    unfold Serverless.handler. rewrite Hpost, Hkey.
    assert (Http.set (Some key) = true) as -> by (by destruct key).
    cbn [negb String.eqb Ascii.eqb Bool.eqb].
    destruct (Serverless.rateLimit now
                (Http.clientIp (Serverless.x_forwarded_for req) (Serverless.remoteAddress req)) m)
      as [rejected m'].
    simpl in Hadmit. subst rejected.
    unfold Serverless.requestBody. rewrite Hbody. done.
Qed.

End Payload.

Section PayloadExamples.
Import Json.


Lemma X16_payload_is_forwarded_verbatim_witness :
  let env := Express.mkEnvironment (Some "k") None None (Some "1") None
               QuotaGuard.defaultConfig in
  let req := Express.mkRequest None (Some "203.0.113.7") None (Some Harness.samplePayload) in
  (Express.proxy JSON_parse Examples.unreachable env 0 req QuotaGuard.inProcess).2.*2
  = [Some Harness.samplePayload].
Proof.
  cbv zeta.
  apply (proj1 (X16_payload_is_forwarded_verbatim JSON_parse Examples.unreachable)
           (Express.mkEnvironment (Some "k") None None (Some "1") None QuotaGuard.defaultConfig)
           0 (Express.mkRequest None (Some "203.0.113.7") None (Some Harness.samplePayload))
           QuotaGuard.inProcess "k" eq_refl).
  - discriminate.
  - by vm_compute.
Defined.

End PayloadExamples.

(** ** The ceilings and the in-process counters *)

Section CeilingsAndCounters.
Import Clock QuotaGuard Accounting.

Lemma verdict_mono cfg1 cfg2 n d :
  MAX_REQUESTS_PER_MIN cfg1 ≤ MAX_REQUESTS_PER_MIN cfg2 →
  MAX_DAILY_REQUESTS cfg1 ≤ MAX_DAILY_REQUESTS cfg2 →
  verdict cfg1 n d = Admit → verdict cfg2 n d = Admit.
Proof. rewrite !verdict_Admit. lia. Qed.

(** X17: the in-process counters do not depend on the ceilings: rejected
    calls are counted like admitted ones, so the table after a sequence of
    calls is the same under any two configurations. Hence raising the
    ceilings never turns an admitted call into a rejected one. *)
Theorem X17_in_process_counters_ignore_ceilings cfg1 cfg2 (calls : list (string * Z))
    (m : gmap string entry) :
  ipMap (finalState cfg1 calls (mkLimiter None m))
  = ipMap (finalState cfg2 calls (mkLimiter None m))
  ∧ (MAX_REQUESTS_PER_MIN cfg1 ≤ MAX_REQUESTS_PER_MIN cfg2 →
     MAX_DAILY_REQUESTS cfg1 ≤ MAX_DAILY_REQUESTS cfg2 →
     ∀ i, run cfg1 calls (mkLimiter None m) !! i = Some Admit →
          run cfg2 calls (mkLimiter None m) !! i = Some Admit).
Proof.
  revert m. induction calls as [|[c0 t0] calls IH]; intros m; [done|].
  rewrite !finalState_local_cons, !run_local_cons, !checkRateLimit_mem_spec.
  cbv zeta. cbn [fst snd].
  match goal with |- context [finalState cfg1 calls (mkLimiter None ?m1)] =>
    destruct (IH m1) as [IHs IHr] end.
  split; [done|]. intros Hmin Hday [|i]; simpl.
  - intros [= H]. f_equal. by eapply verdict_mono.
  - by apply IHr.
Qed.

Lemma X17_in_process_counters_ignore_ceilings_witness :
  let calls := [("a", 0); ("a", 1000); ("a", 60000)] in
  MAX_REQUESTS_PER_MIN (mkConfig 1 2) ≤ MAX_REQUESTS_PER_MIN (mkConfig 2 3)
  ∧ MAX_DAILY_REQUESTS (mkConfig 1 2) ≤ MAX_DAILY_REQUESTS (mkConfig 2 3)
  ∧ run (mkConfig 1 2) calls (mkLimiter None ∅) !! 0%nat = Some Admit
  ∧ run (mkConfig 2 3) calls (mkLimiter None ∅) !! 0%nat = Some Admit.
Proof.
  cbv zeta. split_and!; [simpl; lia|simpl; lia|reflexivity|].
  apply (proj2 (X17_in_process_counters_ignore_ceilings (mkConfig 1 2) (mkConfig 2 3)
                  [("a", 0); ("a", 1000); ("a", 60000)] ∅)); [simpl; lia..|reflexivity].
Defined.

End CeilingsAndCounters.

(** ** The cost of a sequence of requests *)

Section Cost.
Import Json Clock QuotaGuard Accounting.

Variable JSON_parse : json → option json.
Variable fetch : string → option json → Http.fetched.





End Cost.
